(** * Arbitrage-chain detection of [jito.py], embedded in Rocq

    The development follows the per-transaction core of [main]:
    [construct_balance_changes], the removal of the signer, the detection of
    swap legs and their matching in [token_change_owners], the list [pairs],
    the greedy merge of pairs into [links], and the classification of every
    link into [records].

    Python values are modelled as the code has them: owners, mints and
    signatures are strings (a [str] is held in UTF-8, as string literals
    are written), raw amounts are arbitrary-precision integers
    ([Z]), scaled amounts are IEEE binary64 floats ([spec_float] at
    precision 53), dictionaries are association lists in insertion order,
    and exceptions are the [Raise] results of a small error monad. *)

From Stdlib Require Import ZArith NArith List String Ascii Bool Lia Arith.
From Stdlib Require Import Permutation.
From Stdlib Require Import Floats.SpecFloat.
Import ListNotations.

Local Open Scope string_scope.
Local Open Scope list_scope.

(* ================================================================= *)
(** ** Exceptions *)

Inductive exn : Type :=
| ValueError      (* int() on a malformed literal *)
| OverflowError   (* int / int too large for a float *)
| KeyError        (* subscript of a plain dict on a missing key *)
| NameError       (* use of a loop variable that was never bound *)
| IndexError      (* [0] on an empty list *)
| OutOfFuel.      (* not a Python exception: a loop of the model ran out of
                     fuel; [chains_total] shows that [links] never does *)

Inductive res (A : Type) : Type :=
| Ok (a : A)
| Raise (e : exn).

Arguments Ok {A} a.
Arguments Raise {A} e.

Definition bind {A B : Type} (m : res A) (k : A -> res B) : res B :=
  match m with
  | Ok a => k a
  | Raise e => Raise e
  end.

Notation "x <- m ;; k" := (bind m (fun x => k))
  (at level 61, m at next level, right associativity).
Notation "' p <- m ;; k" := (bind m (fun x => let 'p := x in k))
  (at level 61, p pattern, m at next level, right associativity).

Definition of_option {A : Type} (e : exn) (o : option A) : res A :=
  match o with
  | Some a => Ok a
  | None => Raise e
  end.

(* ================================================================= *)
(** ** Python floats: IEEE binary64 *)

Module PyFloat.

Definition prec : Z := 53.
Definition emax : Z := 1024.

Definition float : Type := spec_float.

Definition zero : float := S754_zero false.

(** The integer [z] as an exact, not yet rounded, binary number. *)
Definition of_int (z : Z) : float :=
  match z with
  | Z0 => S754_zero false
  | Zpos p => S754_finite false p 0
  | Zneg p => S754_finite true p 0
  end.

(** [1.0], the float [math.prod] switches to when it meets a float. *)
Definition one : float := S754_finite false 4503599627370496 (-52).

Definition mul : float -> float -> float := SFmul prec emax.
Definition add : float -> float -> float := SFadd prec emax.
Definition neg : float -> float := SFopp.
Definition abs : float -> float := SFabs.
Definition ltb : float -> float -> bool := SFltb.
Definition eqb : float -> float -> bool := SFeqb.

(** [a / b] on two Python ints: the quotient of the exact integers,
    rounded once to nearest-even; a result beyond the largest float raises
    [OverflowError].  Only called with [b = 10 ** decimals > 0]. *)
Definition truediv (a b : Z) : res float :=
  match SFdiv prec emax (of_int a) (of_int b) with
  | S754_infinity _ => Raise OverflowError
  | q => Ok q
  end.

(** [math.prod(values)]: the running product starts at the int [1], which
    becomes [1.0] at the first float. *)
Definition prod (vs : list float) : float := fold_left mul vs one.

(** The sign bit of a float that is not a NaN. *)
Definition sign (x : float) : option bool :=
  match x with
  | S754_zero s | S754_infinity s | S754_finite s _ _ => Some s
  | S754_nan => None
  end.

Definition is_zero (x : float) : bool :=
  match x with S754_zero _ => true | _ => false end.

End PyFloat.

(* ================================================================= *)
(** ** Strings *)

Module PyStr.

(** A Python [str] is a sequence of code points.  A Rocq string holds it
    in UTF-8, as string literals are written, so that equal strings are
    equal byte for byte; [code_points] reads the code points back.  A
    lone surrogate, which a [str] decoded from JSON can hold, has its
    three-byte form.  Bytes that encode no [str] give [None]. *)

Definition continuation (b : N) : option N :=
  if ((128 <=? b) && (b <=? 191))%N then Some (b - 128)%N else None.

Fixpoint decode (bs : list N) : option (list N) :=
  match bs with
  | [] => Some []
  | b0 :: r0 =>
      if (b0 <? 128)%N then option_map (cons b0) (decode r0)
      else if ((194 <=? b0) && (b0 <=? 223))%N then
        match r0 with
        | b1 :: r1 =>
            match continuation b1 with
            | Some c1 =>
                option_map (cons ((b0 - 192) * 64 + c1)%N) (decode r1)
            | None => None
            end
        | _ => None
        end
      else if ((224 <=? b0) && (b0 <=? 239))%N then
        match r0 with
        | b1 :: b2 :: r2 =>
            match continuation b1, continuation b2 with
            | Some c1, Some c2 =>
                let cp := ((b0 - 224) * 4096 + c1 * 64 + c2)%N in
                if (2048 <=? cp)%N then option_map (cons cp) (decode r2)
                else None
            | _, _ => None
            end
        | _ => None
        end
      else if ((240 <=? b0) && (b0 <=? 244))%N then
        match r0 with
        | b1 :: b2 :: b3 :: r3 =>
            match continuation b1, continuation b2, continuation b3 with
            | Some c1, Some c2, Some c3 =>
                let cp := ((b0 - 240) * 262144 + c1 * 4096 + c2 * 64 + c3)%N in
                if ((65536 <=? cp) && (cp <=? 1114111))%N
                then option_map (cons cp) (decode r3)
                else None
            | _, _, _ => None
            end
        | _ => None
        end
      else None
  end.

Definition code_points (s : string) : option (list N) :=
  decode (map N_of_ascii (list_ascii_of_string s)).

End PyStr.

(* ================================================================= *)
(** ** [int(s)] on a string *)

Module PyInt.

(** [int] first turns every character above 126 into ASCII: a Unicode
    space into a blank, a Unicode decimal digit into its ASCII digit, and
    anything else into a character no literal holds.  The tables are those
    of CPython 3.11 (Unicode 14.0). *)

(** The spaces above 126. *)
Definition unicode_spaces : list N :=
  [133; 160; 5760; 8192; 8193; 8194; 8195; 8196; 8197; 8198; 8199; 8200;
   8201; 8202; 8232; 8233; 8239; 8287; 12288]%N.

(** The characters [int] skips around a literal: tab to carriage return
    and the blank, and what has become a blank.  The separators 28 to 31
    are below 127 and stay as they are: no whitespace for [int]. *)
Definition is_space (c : N) : bool :=
  (((9 <=? c) && (c <=? 13)) || (c =? 32))%N || existsb (N.eqb c) unicode_spaces.

(** The digit zero of every script with decimal digits; its nine
    successors are the digits one to nine. *)
Definition zeros : list N :=
  [48; 1632; 1776; 1984; 2406; 2534; 2662; 2790; 2918; 3046; 3174;
   3302; 3430; 3558; 3664; 3792; 3872; 4160; 4240; 6112; 6160; 6470;
   6608; 6784; 6800; 6992; 7088; 7232; 7248; 42528; 43216; 43264;
   43472; 43504; 43600; 44016; 65296; 66720; 68912; 69734; 69872;
   69942; 70096; 70384; 70736; 70864; 71248; 71360; 71472; 71904;
   72016; 72784; 73040; 73120; 92768; 92864; 93008; 120782; 120792;
   120802; 120812; 120822; 123200; 123632; 125264; 130032]%N.

Definition digit_value (c : N) : option Z :=
  match find (fun z => ((z <=? c) && (c <=? z + 9))%N) zeros with
  | Some z => Some (Z.of_N (c - z))
  | None => None
  end.

Fixpoint lstrip (cs : list N) : list N :=
  match cs with
  | c :: cs' => if is_space c then lstrip cs' else cs
  | [] => []
  end.

Definition strip (cs : list N) : list N :=
  rev (lstrip (rev (lstrip cs))).

(** The interpreter's limit on the digits of a decimal literal (its
    default, [sys.int_info.default_max_str_digits]). *)
Definition max_str_digits : nat := 4300.

(** Decimal digits, a single underscore (code point 95) allowed between
    two digits; [count] is the number of digits read, leading zeros
    included, and a literal of more than [max_str_digits] digits is
    refused. *)
Fixpoint digits (acc : Z) (count : nat) (after_digit : bool) (cs : list N)
  : option Z :=
  match cs with
  | [] =>
      if (after_digit && (count <=? max_str_digits)%nat)%bool
      then Some acc else None
  | c :: cs' =>
      match digit_value c with
      | Some d => digits (10 * acc + d)%Z (S count) true cs'
      | None =>
          if ((c =? 95)%N && after_digit)%bool
          then digits acc count false cs'
          else None
      end
  end.

(** A literal: an optional sign (code point 45 or 43), then the digits. *)
Definition literal (cs : list N) : option Z :=
  match strip cs with
  | c :: cs' =>
      if (c =? 45)%N then option_map Z.opp (digits 0%Z 0 false cs')
      else if (c =? 43)%N then digits 0%Z 0 false cs'
      else digits 0%Z 0 false (c :: cs')
  | [] => None
  end.

Definition parse (s : string) : option Z :=
  match PyStr.code_points s with
  | Some cs => literal cs
  | None => None
  end.

(** [int(s)] in base ten, as CPython 3.11 does it: surrounding
    whitespace, an optional sign, at most [max_str_digits] digits of any
    script with single underscores between them; anything else raises
    [ValueError]. *)
Definition int (s : string) : res Z := of_option ValueError (parse s).

End PyInt.

(* ================================================================= *)
(** ** Insertion-ordered dictionaries *)

Section Dict.

Context {K V : Type}.
Variable keq : K -> K -> bool.

Definition dict : Type := list (K * V).

Fixpoint get (k : K) (d : dict) : option V :=
  match d with
  | [] => None
  | (k', v) :: d' => if keq k' k then Some v else get k d'
  end.

(** [d[k] = f(d[k])] on a [defaultdict]: a missing key is first inserted,
    at the end, with the default value. *)
Fixpoint update (k : K) (f : V -> V) (default : V) (d : dict) : dict :=
  match d with
  | [] => [(k, f default)]
  | (k', v) :: d' =>
      if keq k' k then (k', f v) :: d' else (k', v) :: update k f default d'
  end.

(** [d[k] = v] on a plain dict. *)
Definition set (k : K) (v : V) (d : dict) : dict :=
  update k (fun _ => v) v d.

(** [d.pop(k, None)]. *)
Fixpoint pop (k : K) (d : dict) : dict :=
  match d with
  | [] => []
  | (k', v) :: d' => if keq k' k then d' else (k', v) :: pop k d'
  end.

Definition keys (d : dict) : list K := map fst d.
Definition values (d : dict) : list V := map snd d.

(** No two entries have equal keys. *)
Fixpoint wf (d : dict) : Prop :=
  match d with
  | [] => True
  | (k, _) :: d' => get k d' = None /\ wf d'
  end.

End Dict.

Arguments dict K V : clear implicits.

(* ================================================================= *)
(** ** Transactions *)

(** One entry of [preTokenBalances] or [postTokenBalances];
    [amount] and [decimals] are the fields of [uiTokenAmount]: [amount] is
    a string or null, [decimals] a count of decimal places (a [u8] on the
    ledger, so never negative). *)
Record TokenBalance : Type := {
  owner : string;
  mint : string;
  amount : option string;
  decimals : N
}.

Record Transaction : Type := {
  signatures : list string;
  accountKeys : list string;     (* the [pubkey] of every account key *)
  preTokenBalances : list TokenBalance;
  postTokenBalances : list TokenBalance
}.

(* ================================================================= *)
(** ** [construct_balance_changes] *)

Definition Changes : Type := dict string (dict string Z).
Definition Decimals : Type := dict string N.
Definition BalanceChanges : Type := dict string (dict string PyFloat.float).

(** [int(x["uiTokenAmount"]["amount"] or "0")] *)
Definition amount_int (b : TokenBalance) : res Z :=
  match amount b with
  | None => PyInt.int "0"
  | Some s => if String.eqb s "" then PyInt.int "0" else PyInt.int s
  end.

(** One iteration of either accumulation loop; [sign] is [1] for the post
    balances ([+=]) and [-1] for the pre balances ([-=]). *)
Definition accumulate (sign : Z) (st : Changes * Decimals) (b : TokenBalance)
  : res (Changes * Decimals) :=
  let '(changes, decs) := st in
  n <- amount_int b ;;
  Ok (update String.eqb (owner b)
        (update String.eqb (mint b) (fun y => y + sign * n)%Z 0%Z) [] changes,
      set String.eqb (mint b) (decimals b) decs).

Fixpoint accumulate_all (sign : Z) (st : Changes * Decimals)
  (bs : list TokenBalance) : res (Changes * Decimals) :=
  match bs with
  | [] => Ok st
  | b :: bs' => st' <- accumulate sign st b ;; accumulate_all sign st' bs'
  end.

(** [{x: y / 10 ** per_mint_decimals[x] for x, y in v.items() if y != 0}] *)
Fixpoint scale (decs : Decimals) (v : dict string Z)
  : res (dict string PyFloat.float) :=
  match v with
  | [] => Ok []
  | (x, y) :: v' =>
      if (y =? 0)%Z then scale decs v'
      else
        d <- of_option KeyError (get String.eqb x decs) ;;
        q <- PyFloat.truediv y (10 ^ Z.of_N d) ;;
        rest <- scale decs v' ;;
        Ok ((x, q) :: rest)
  end.

(** [{k: {...} for k, v in per_owner_per_mint_change.items() if v}] *)
Fixpoint scale_all (decs : Decimals) (changes : Changes) : res BalanceChanges :=
  match changes with
  | [] => Ok []
  | (k, v) :: changes' =>
      match v with
      | [] => scale_all decs changes'
      | _ :: _ =>
          v' <- scale decs v ;;
          rest <- scale_all decs changes' ;;
          Ok ((k, v') :: rest)
      end
  end.

Definition construct_balance_changes (transaction : Transaction)
  : res BalanceChanges :=
  st <- accumulate_all 1 ([], []) (postTokenBalances transaction) ;;
  '(changes, decs) <- accumulate_all (-1) st (preTokenBalances transaction) ;;
  scale_all decs changes.

(* ================================================================= *)
(** ** The per-transaction body of [main] *)

(** *** Swap legs and [token_change_owners] *)

(** A key of [token_change_owners]: [(mint, abs(change))].  Two keys are the
    same dictionary key when the mints are equal strings and the amounts are
    equal floats. *)
Definition TransferKey : Type := (string * PyFloat.float)%type.

Definition key_eqb (k1 k2 : TransferKey) : bool :=
  String.eqb (fst k1) (fst k2) && PyFloat.eqb (snd k1) (snd k2).

(** The two-element list [[None, None]] of a key: who gave, who received. *)
Definition Slots : Type := (option string * option string)%type.

Definition TokenChangeOwners : Type := dict TransferKey Slots.

(** [len(per_mint_change) == 2 and prod(per_mint_change.values()) < 0] *)
Definition is_leg (per_mint_change : dict string PyFloat.float) : bool :=
  (List.length per_mint_change =? 2)%nat
  && PyFloat.ltb (PyFloat.prod (values per_mint_change)) PyFloat.zero.

(** [v[0 if change < 0 else 1] = owner] *)
Definition set_slot (change : PyFloat.float) (o : string) (v : Slots) : Slots :=
  if PyFloat.ltb change PyFloat.zero then (Some o, snd v) else (fst v, Some o).

(** [token_change_owners[(mint, abs(change))][0 if change < 0 else 1] = owner] *)
Definition record_change (o : string) (tco : TokenChangeOwners)
  (entry : string * PyFloat.float) : TokenChangeOwners :=
  let '(m, change) := entry in
  update key_eqb (m, PyFloat.abs change) (set_slot change o) (None, None) tco.

(** One iteration of the loop over the owners. *)
Definition record_owner (tco : TokenChangeOwners)
  (entry : string * dict string PyFloat.float) : TokenChangeOwners :=
  let '(o, per_mint_change) := entry in
  if is_leg per_mint_change
  then fold_left (record_change o) per_mint_change tco
  else tco.

Definition token_change_owners (per_owner_per_mint_change : BalanceChanges)
  : TokenChangeOwners :=
  fold_left record_owner per_owner_per_mint_change [].

(** *** [pairs] *)

Definition Pair : Type := (string * string)%type.

(** Truth value of a slot: [None] and the empty string are false. *)
Definition truthy (s : option string) : bool :=
  match s with
  | Some o => negb (String.eqb o "")
  | None => false
  end.

(** [[v for v in token_change_owners.values() if v[0] and v[1]]] *)
Fixpoint pairs (tco : TokenChangeOwners) : list Pair :=
  match tco with
  | [] => []
  | (_, (Some a, Some b)) :: tco' =>
      if truthy (Some a) && truthy (Some b)
      then (a, b) :: pairs tco' else pairs tco'
  | _ :: tco' => pairs tco'
  end.

(** *** Merging pairs into links *)

Definition pair_eqb (p q : Pair) : bool :=
  String.eqb (fst p) (fst q) && String.eqb (snd p) (snd q).

(** [l.pop()]: the last element and the list without it. *)
Fixpoint pop_last {A : Type} (l : list A) : option (list A * A) :=
  match l with
  | [] => None
  | x :: l' =>
      match pop_last l' with
      | None => Some ([], x)
      | Some (r, y) => Some (x :: r, y)
      end
  end.

(** [l.remove(x)]: drops the first element equal to [x]. *)
Fixpoint remove_first (x : Pair) (l : list Pair) : list Pair :=
  match l with
  | [] => []
  | y :: l' => if pair_eqb y x then l' else y :: remove_first x l'
  end.

(** [link[0]] and [link[-1]]; a link is never empty. *)
Definition link_first (link : list string) : string := hd "" link.
Definition link_last (link : list string) : string := last link "".

(** The [for l in pairs] scan: the first pair that extends the link at its
    tail ([Some (l, true)]) or, failing that test, at its head
    ([Some (l, false)]). *)
Fixpoint find_extension (link : list string) (ps : list Pair)
  : option (Pair * bool) :=
  match ps with
  | [] => None
  | l :: ps' =>
      if String.eqb (fst l) (link_last link) then Some (l, true)
      else if String.eqb (snd l) (link_first link) then Some (l, false)
      else find_extension link ps'
  end.

(** One pass of the scan: [None] when [found] stays false. *)
Definition extend_once (ps : list Pair) (link : list string)
  : option (list Pair * list string) :=
  match find_extension link ps with
  | Some (l, true) => Some (remove_first l ps, link ++ [snd l])
  | Some (l, false) => Some (remove_first l ps, fst l :: link)
  | None => None
  end.

(** The [while True] loop: extends the link until a scan finds nothing.
    [fuel] bounds the number of scans. *)
Fixpoint extend (fuel : nat) (ps : list Pair) (link : list string)
  : option (list Pair * list string) :=
  match fuel with
  | O => None
  | S fuel' =>
      match extend_once ps link with
      | Some (ps', link') => extend fuel' ps' link'
      | None => Some (ps, link)
      end
  end.

(** The [while pairs] loop.  It returns the finished [link] lists in the
    order they are finished; [links] keeps [(link[0], link[-1])] of each. *)
Fixpoint chains (fuel : nat) (ps : list Pair) (done : list (list string))
  : option (list (list string)) :=
  match fuel with
  | O => None
  | S fuel' =>
      match pop_last ps with
      | None => Some done
      | Some (rest, l) =>
          match extend fuel' rest [fst l; snd l] with
          | Some (rest', link) => chains fuel' rest' (done ++ [link])
          | None => None
          end
      end
  end.

Definition ends (link : list string) : Pair := (link_first link, link_last link).

Definition links (ps : list Pair) : option (list Pair) :=
  option_map (map ends) (chains (S (List.length ps)) ps []).

(** The pairs a finished link was merged from: its consecutive owners. *)
Fixpoint edges_of (link : list string) : list Pair :=
  match link with
  | a :: ((b :: _) as tl) => (a, b) :: edges_of tl
  | _ => []
  end.

(** *** Classification *)

(** [(signature, signer, first_token, -(first_value + last_value))] *)
Record Arbitrage : Type := {
  arb_signature : string;
  arb_beneficiary : string;
  arb_mint : string;
  arb_amount : PyFloat.float
}.

(** A loop variable pair such as [first_token, first_value]: unbound until
    a loop binds it, and it keeps its value after the loop. *)
Definition Binding : Type := option (string * PyFloat.float).

(** [for token, value in items: if test(value): break] *)
Fixpoint for_break (test : PyFloat.float -> bool)
  (items : dict string PyFloat.float) (b : Binding) : Binding :=
  match items with
  | [] => b
  | (t, v) :: items' =>
      if test v then Some (t, v) else for_break test items' (Some (t, v))
  end.

Definition gt_zero (v : PyFloat.float) : bool := PyFloat.ltb PyFloat.zero v.
Definition lt_zero (v : PyFloat.float) : bool := PyFloat.ltb v PyFloat.zero.

(** What [main] carries from one transaction to the next: the list
    [records] and the loop variables of the classification loops. *)
Record MainState : Type := {
  records : list Arbitrage;
  first_bound : Binding;
  last_bound : Binding
}.

Definition initial : MainState :=
  {| records := []; first_bound := None; last_bound := None |}.

(** One iteration of [for first, last in links]. *)
Definition classify (signature signer : string)
  (per_owner_per_mint_change : BalanceChanges)
  (st : MainState) (link : Pair) : res MainState :=
  let '(first, last) := link in
  first_changes <- of_option KeyError
                     (get String.eqb first per_owner_per_mint_change) ;;
  let fb := for_break gt_zero first_changes (first_bound st) in
  last_changes <- of_option KeyError
                    (get String.eqb last per_owner_per_mint_change) ;;
  let lb := for_break lt_zero last_changes (last_bound st) in
  '(first_token, first_value) <- of_option NameError fb ;;
  '(last_token, last_value) <- of_option NameError lb ;;
  Ok {| records :=
          if String.eqb first_token last_token
          then records st ++
               [{| arb_signature := signature;
                   arb_beneficiary := signer;
                   arb_mint := first_token;
                   arb_amount := PyFloat.neg (PyFloat.add first_value last_value) |}]
          else records st;
        first_bound := fb;
        last_bound := lb |}.

Fixpoint classify_all (signature signer : string)
  (per_owner_per_mint_change : BalanceChanges)
  (st : MainState) (lks : list Pair) : res MainState :=
  match lks with
  | [] => Ok st
  | link :: lks' =>
      st' <- classify signature signer per_owner_per_mint_change st link ;;
      classify_all signature signer per_owner_per_mint_change st' lks'
  end.

(** *** The body of [for transaction in ...] *)

(** Everything after [per_owner_per_mint_change.pop(signer, None)]. *)
Definition detect (signature signer : string)
  (per_owner_per_mint_change : BalanceChanges) (st : MainState)
  : res MainState :=
  lks <- of_option OutOfFuel
           (links (pairs (token_change_owners per_owner_per_mint_change))) ;;
  classify_all signature signer per_owner_per_mint_change st lks.

Definition process (st : MainState) (transaction : Transaction) : res MainState :=
  signature <- of_option IndexError (hd_error (signatures transaction)) ;;
  signer <- of_option IndexError (hd_error (accountKeys transaction)) ;;
  changes <- construct_balance_changes transaction ;;
  detect signature signer (pop String.eqb signer changes) st.

(** The transactions of all slots, in the order [main] visits them. *)
Fixpoint main_loop (st : MainState) (transactions : list Transaction)
  : res MainState :=
  match transactions with
  | [] => Ok st
  | t :: ts => st' <- process st t ;; main_loop st' ts
  end.

(* ================================================================= *)
(** ** [rpc] *)

(** What [rpc] reads of one HTTP response: the status code, the
    [retry-after] header if there is one (the [str] the program reads),
    and the decoded JSON body, which [response.json()] is taken to give.  The answers of the
    server to the successive requests are a list; the JSON values are of
    any type [J]. *)
Record Response (J : Type) : Type := {
  status_code : Z;
  retry_after : option string;
  json : J
}.

Arguments status_code {J} r.
Arguments retry_after {J} r.
Arguments json {J} r.

(** How a call ends: with the JSON of a response, after the listed calls
    of [time.sleep]; with the failed assertion on status 403 (assertions
    enabled); with the [ValueError] of [int] on the header or of
    [time.sleep] on a negative length; with the [OverflowError] of
    [time.sleep] on a length that does not fit its nanosecond clock; or
    still in the loop when the list of answers is used up. *)
Inductive RpcResult (J : Type) : Type :=
| Returned (result : J) (slept : list Z)
| AssertionError
| RpcValueError
| RpcOverflowError
| Waiting (slept : list Z).

Arguments Returned {J} result slept.
Arguments AssertionError {J}.
Arguments RpcValueError {J}.
Arguments RpcOverflowError {J}.
Arguments Waiting {J} slept.

(** The most seconds [time.sleep] takes from an int: it counts
    nanoseconds in 64 signed bits, and [(2^63 - 1) / 10^9] is this. *)
Definition sleep_limit : Z := 9223372036.

(** The [while True] loop of [rpc]; [slept] lists the sleeps so far. *)
Fixpoint rpc {J : Type} (responses : list (Response J)) (slept : list Z)
  : RpcResult J :=
  match responses with
  | [] => Waiting slept
  | response :: rest =>
      if (status_code response =? 403)%Z then AssertionError
      else if (status_code response =? 200)%Z then Returned (json response) slept
      else
        match (if (status_code response =? 429)%Z then retry_after response
               else None) with
        | Some header =>
            match PyInt.int header with
            | Ok wait =>
                if ((wait <? - sleep_limit) || (sleep_limit <? wait))%Z
                then RpcOverflowError
                else if (wait <? 0)%Z then RpcValueError
                else rpc rest (slept ++ [wait; 1%Z])
            | Raise _ => RpcValueError
            end
        | None => rpc rest (slept ++ [1%Z])
        end
  end.

(* ================================================================= *)
(** ** The statistics at the end of [main] *)

Definition WSOL : string := "So11111111111111111111111111111111111111112".

(** The float [200.0]. *)
Definition two_hundred : PyFloat.float := S754_finite false 7036874417766400 (-45).

Definition KNOWN_TOKEN_VALUE : dict string PyFloat.float :=
  [(WSOL, two_hundred);
   ("EPjFWdd5AufqSSqeM2qN1xzybapC8G4wEGGkZwyTDt1v", PyFloat.one);
   ("Es9vMFrzaCERmJfrF4H2FYD4KCoNkY11McCe8BenwNYB", PyFloat.one)].

(** The variables of the loop over [records].  [rows] are the records
    printed to the data file after the header, [biggest] is the pair
    [(biggest[0], biggest[1])] with the record and its dollar value in
    place of the message built from them. *)
Record Statistics : Type := {
  rows : list Arbitrage;
  biggest : PyFloat.float * option (Arbitrage * PyFloat.float);
  total_dollar : PyFloat.float;
  count : Z;
  per_signer_dollar : dict string PyFloat.float
}.

Definition no_statistics : Statistics :=
  {| rows := [];
     biggest := (PyFloat.zero, None);
     total_dollar := PyFloat.zero;
     count := 0;
     per_signer_dollar := [] |}.

(** One iteration of [for signature, signer, token, amount in records]. *)
Definition tally (s : Statistics) (r : Arbitrage) : Statistics :=
  match get String.eqb (arb_mint r) KNOWN_TOKEN_VALUE with
  | None =>
      {| rows := rows s ++ [r];
         biggest := biggest s;
         total_dollar := total_dollar s;
         count := count s;
         per_signer_dollar := per_signer_dollar s |}
  | Some price =>
      let curr := PyFloat.mul (arb_amount r) price in
      {| rows := rows s ++ [r];
         biggest := if PyFloat.ltb (fst (biggest s)) curr
                    then (curr, Some (r, curr)) else biggest s;
         total_dollar := PyFloat.add (total_dollar s) curr;
         count := (count s + 1)%Z;
         per_signer_dollar :=
           update String.eqb (arb_beneficiary r)
             (fun x => PyFloat.add x curr) PyFloat.zero (per_signer_dollar s) |}
  end.

(** [float(n)] for an int: the nearest float. *)
Definition float_of_int (n : Z) : PyFloat.float :=
  binary_normalize PyFloat.prec PyFloat.emax n 0 false.

(** [total_dollar / count]; [None] is the [ZeroDivisionError]. *)
Definition average (s : Statistics) : option PyFloat.float :=
  if (count s =? 0)%Z then None
  else Some (SFdiv PyFloat.prec PyFloat.emax (total_dollar s)
               (float_of_int (count s))).

(** The loop, then the average of the summary line. *)
Definition statistics (recs : list Arbitrage) : Statistics :=
  fold_left tally recs no_statistics.

Definition known (r : Arbitrage) : bool :=
  match get String.eqb (arb_mint r) KNOWN_TOKEN_VALUE with
  | Some _ => true
  | None => false
  end.

(* ================================================================= *)
(** ** Vocabulary of the properties *)

(** Owners are unique, and so are the mints of every owner. *)
Definition wf2 {X : Type} (d : dict string (dict string X)) : Prop :=
  wf String.eqb d /\ forall k v, In (k, v) d -> wf String.eqb v.

(** An owner that is kept as a swap leg. *)
Definition leg_owner (d : BalanceChanges) (o : string) : Prop :=
  exists pm, In (o, pm) d /\ is_leg pm = true.

(** Every owner written in a slot satisfies [P]. *)
Definition slots_from (P : string -> Prop) (tco : TokenChangeOwners) : Prop :=
  forall k s0 s1, In (k, (s0, s1)) tco ->
    (forall o, s0 = Some o -> P o) /\ (forall o, s1 = Some o -> P o).

(** The owners kept as swap legs, and what one of them writes. *)
Definition swap_legs (d : BalanceChanges) : BalanceChanges :=
  filter (fun e => is_leg (snd e)) d.

Definition record_leg (tco : TokenChangeOwners)
  (leg : string * dict string PyFloat.float) : TokenChangeOwners :=
  fold_left (record_change (fst leg)) (snd leg) tco.

(** A slot list with both slots set to non-empty owners. *)
Definition complete (s : Slots) : bool := truthy (fst s) && truthy (snd s).

(** The entry a [for ... break] loop stops at, when exactly one entry
    passes the test: the loop variables then do not depend on what they
    held before. *)
Definition only (test : PyFloat.float -> bool)
  (items : dict string PyFloat.float) (t : string) (v : PyFloat.float) : Prop :=
  exists l1 l2,
    items = l1 ++ (t, v) :: l2 /\ test v = true /\
    Forall (fun e => test (snd e) = false) (l1 ++ l2).

(** The record of a round trip. *)
Definition arbitrage (signature signer token : string) (first_value last_value : PyFloat.float)
  : Arbitrage :=
  {| arb_signature := signature;
     arb_beneficiary := signer;
     arb_mint := token;
     arb_amount := PyFloat.neg (PyFloat.add first_value last_value) |}.

(** What one link adds to [records] when its first owner has the single
    positive entry [(tH, vH)] and its last owner the single negative entry
    [(tT, vT)]. *)
Definition verdict (signature signer : string) (tH : string) (vH : PyFloat.float)
  (tT : string) (vT : PyFloat.float) : list Arbitrage :=
  if String.eqb tH tT then [arbitrage signature signer tH vH vT] else [].

(** The records a link between swap legs adds: a function of the balance
    changes and the link alone. *)
Definition added (signature signer : string) (d : BalanceChanges) (link : Pair) : list Arbitrage :=
  match classify signature signer d initial link with
  | Ok st => records st
  | Raise _ => []
  end.

(** The raw amount of an entry, and the raw amounts of the entries of one
    owner and mint added up. *)
Definition raw_amount (b : TokenBalance) : Z :=
  match amount_int b with
  | Ok n => n
  | Raise _ => 0%Z
  end.

Fixpoint total (o m : string) (bs : list TokenBalance) : Z :=
  match bs with
  | [] => 0%Z
  | b :: bs' =>
      if String.eqb (owner b) o && String.eqb (mint b) m
      then (raw_amount b + total o m bs')%Z
      else total o m bs'
  end.

(** Sum of the post amounts minus sum of the pre amounts. *)
Definition net_change (transaction : Transaction) (o m : string) : Z :=
  (total o m (postTokenBalances transaction)
   - total o m (preTokenBalances transaction))%Z.

(** The decimals of the last entry of the mint, post balances first. *)
Definition last_decimals (m : string) (bs : list TokenBalance) (cur : option N)
  : option N :=
  fold_left (fun cur b => if String.eqb (mint b) m then Some (decimals b) else cur)
    bs cur.

Definition entry_of (v : dict string Z) (m : string) : Z :=
  match get String.eqb m v with Some y => y | None => 0%Z end.

Definition change_of (changes : Changes) (o m : string) : Z :=
  match get String.eqb o changes with
  | Some v => match get String.eqb m v with Some y => y | None => 0%Z end
  | None => 0%Z
  end.

(* ================================================================= *)
(** ** Concrete transactions *)

Definition balance (o m : string) (a : string) (d : N) : TokenBalance :=
  {| owner := o; mint := m; amount := Some a; decimals := d |}.

(** The float [30.0]. *)
Definition thirty : PyFloat.float := S754_finite false 8444249301319680 (-48).

(** Signer S; P gives 30 of tokenA and receives 30 of tokenB, Q gives 30 of
    tokenB and receives 30 of tokenA. *)
Definition two_owner_swap : Transaction :=
  {| signatures := ["sig"];
     accountKeys := ["S"];
     preTokenBalances :=
       [balance "P" "tokenA" "30" 0; balance "P" "tokenB" "0" 0;
        balance "Q" "tokenA" "0" 0; balance "Q" "tokenB" "30" 0];
     postTokenBalances :=
       [balance "P" "tokenA" "0" 0; balance "P" "tokenB" "30" 0;
        balance "Q" "tokenA" "30" 0; balance "Q" "tokenB" "0" 0] |}.

(** Owner P holds 5 of tokenA before and after. *)
Definition unchanged_owner : Transaction :=
  {| signatures := ["sig"];
     accountKeys := ["S"];
     preTokenBalances := [balance "P" "tokenA" "5" 0];
     postTokenBalances := [balance "P" "tokenA" "5" 0] |}.

(** The signer pays 100 X to E1, E1 pays 50 Y to E2, E2 pays 105 X back. *)
Definition round_trip : Transaction :=
  {| signatures := ["sig"];
     accountKeys := ["S"];
     preTokenBalances :=
       [balance "S" "X" "1000" 0; balance "E1" "X" "500" 0;
        balance "E1" "Y" "500" 0; balance "E2" "X" "500" 0;
        balance "E2" "Y" "500" 0];
     postTokenBalances :=
       [balance "S" "X" "1005" 0; balance "E1" "X" "600" 0;
        balance "E1" "Y" "450" 0; balance "E2" "X" "395" 0;
        balance "E2" "Y" "550" 0] |}.

(** Every mint of the accumulator has its decimals. *)
Definition mints_known (st : Changes * Decimals) : Prop :=
  forall o v m y, In (o, v) (fst st) -> In (m, y) v ->
    get String.eqb m (snd st) <> None.

(** The records a transaction appends when [main] starts from nothing. *)
Definition emitted (transaction : Transaction) : list Arbitrage :=
  match process initial transaction with
  | Ok st => records st
  | Raise _ => []
  end.

(** No pair of a later link could have extended an earlier link. *)
Fixpoint later_cannot_extend (cs : list (list string)) : Prop :=
  match cs with
  | [] => True
  | c :: rest =>
      (forall a b, In (a, b) (List.concat (map edges_of rest)) ->
         a <> link_last c /\ b <> link_first c) /\
      later_cannot_extend rest
  end.

(** Slot 0 ([true]: who gave) or slot 1 ([false]: who received) of a slot
    list, and the owners that sit in that slot, over all keys. *)
Definition slot (i : bool) (s : Slots) : option string :=
  if i then fst s else snd s.

Definition slot_owners (i : bool) (tco : TokenChangeOwners) : list string :=
  flat_map (fun e => match slot i (snd e) with Some o => [o] | None => [] end) tco.

(** A response that makes [rpc] sleep and ask again: neither 200 nor 403,
    and a [retry-after] header that is read (status 429) is an integer
    literal of a length [time.sleep] accepts. *)
Definition retried {J : Type} (r : Response J) : Prop :=
  status_code r <> 200%Z /\ status_code r <> 403%Z /\
  (status_code r = 429%Z ->
   forall header, retry_after r = Some header ->
     exists wait, PyInt.int header = Ok wait /\ (0 <= wait <= sleep_limit)%Z).

(** The dollar value of a record is above zero. *)
Definition gains (r : Arbitrage) : bool :=
  match get String.eqb (arb_mint r) KNOWN_TOKEN_VALUE with
  | Some price => PyFloat.ltb PyFloat.zero (PyFloat.mul (arb_amount r) price)
  | None => false
  end.

(** The balance changes of [round_trip]. *)
Definition round_trip_changes : BalanceChanges :=
  [("S", [("X", S754_finite false 5629499534213120 (-50))]);
   ("E1", [("X", S754_finite false 7036874417766400 (-46));
           ("Y", S754_finite true 7036874417766400 (-47))]);
   ("E2", [("X", S754_finite true 7388718138654720 (-46));
           ("Y", S754_finite false 7036874417766400 (-47))])].

(** Every owner in a slot is a swap leg with an entry of the key's mint:
    a negative one for slot 0, a positive one for slot 1. *)
Definition gave (d : BalanceChanges) (m o : string) : Prop :=
  exists pm v, In (o, pm) d /\ In (m, v) pm /\ lt_zero v = true.

Definition received (d : BalanceChanges) (m o : string) : Prop :=
  exists pm v, In (o, pm) d /\ In (m, v) pm /\ gt_zero v = true.

Definition slots_justified (d : BalanceChanges) (tco : TokenChangeOwners) : Prop :=
  forall k s0 s1, In (k, (s0, s1)) tco ->
    (forall o, s0 = Some o -> gave d (fst k) o) /\
    (forall o, s1 = Some o -> received d (fst k) o).

(* ================================================================= *)
(** ** The matcher in the words of the specification *)

(** A swap leg: the owner, the key of what it gave (token and magnitude)
    and the key of what it received (token and amount). *)
Record SwapLeg : Type := {
  sl_owner : string;
  sl_given : TransferKey;
  sl_received : TransferKey
}.

(** The leg of an owner that is kept: its entry below zero is what it
    gave, its entry above zero what it received. *)
Definition swap_leg_of (entry : string * dict string PyFloat.float)
  : option SwapLeg :=
  let '(o, pm) := entry in
  if is_leg pm then
    match pm with
    | [(m1, v1); (m2, v2)] =>
        if PyFloat.ltb v1 PyFloat.zero
        then Some {| sl_owner := o; sl_given := (m1, PyFloat.abs v1);
                     sl_received := (m2, v2) |}
        else Some {| sl_owner := o; sl_given := (m2, PyFloat.abs v2);
                     sl_received := (m1, v1) |}
    | _ => None
    end
  else None.

Definition SwapLegs (d : BalanceChanges) : list SwapLeg :=
  flat_map (fun e => match swap_leg_of e with Some l => [l] | None => [] end) d.

(** One leg, seen from key [k]: slot 0 is set to its owner when [k] is
    the key of what it gave, slot 1 when [k] is the key of what it
    received. *)
Definition matcher_write (k : TransferKey) (s : Slots) (l : SwapLeg) : Slots :=
  let s' := if key_eqb (sl_given l) k then (Some (sl_owner l), snd s) else s in
  if key_eqb (sl_received l) k then (fst s', Some (sl_owner l)) else s'.

(** The two slots of key [k] after all legs, starting from empty slots. *)
Definition matcher_slots (legs : list SwapLeg) (k : TransferKey) : Slots :=
  fold_left (matcher_write k) legs (None, None).

(** Some leg gave or received under key [k]. *)
Definition matcher_has_key (legs : list SwapLeg) (k : TransferKey) : bool :=
  existsb (fun l => key_eqb (sl_given l) k || key_eqb (sl_received l) k) legs.

Definition slots_or_empty (o : option Slots) : Slots :=
  match o with
  | Some s => s
  | None => (None, None)
  end.

Definition is_key (o : option Slots) : bool :=
  match o with
  | Some _ => true
  | None => false
  end.

(** A transaction with one swap leg, E1, besides the signer. *)
Definition lone_leg : Transaction :=
  {| signatures := ["sig2"];
     accountKeys := ["S"];
     preTokenBalances :=
       [balance "S" "X" "1000" 0; balance "E1" "X" "500" 0;
        balance "E1" "Y" "500" 0; balance "T" "Y" "0" 0];
     postTokenBalances :=
       [balance "S" "X" "900" 0; balance "E1" "X" "600" 0;
        balance "E1" "Y" "450" 0; balance "T" "Y" "50" 0] |}.

(** A state of [main] after an earlier transaction found a round trip. *)
Definition after_round_trip : MainState :=
  {| records := [{| arb_signature := "sig"; arb_beneficiary := "S";
                    arb_mint := "X";
                    arb_amount := S754_finite false 5629499534213120 (-50) |}];
     first_bound := Some ("X", S754_finite false 7036874417766400 (-46));
     last_bound := Some ("X", S754_finite true 7388718138654720 (-46)) |}.

(* ================================================================= *)
(** * Properties *)

(** ** Signs of floats *)

Module PyFloatFacts.
Import PyFloat.

Lemma round_keeps_sign (s : bool) (m e : Z) (l : location) :
  match binary_round_aux prec emax s m e l with
  | S754_zero s' | S754_infinity s' | S754_finite s' _ _ => s' = s
  | S754_nan => True
  end.
Proof.
  unfold binary_round_aux.
  destruct (shr_fexp prec emax m e l) as [mrs e1].
  destruct (shr_fexp prec emax _ e1 loc_Exact) as [mrs' e2].
  destruct (shr_m mrs'); trivial.
  destruct (e2 <=? emax - prec)%Z; reflexivity.
Qed.

(** A float below zero is [-inf] or a negative finite float. *)
Lemma ltb_zero_inv (x : float) :
  ltb x zero = true ->
  x = S754_infinity true \/ exists m e, x = S754_finite true m e.
Proof.
  destruct x as [s | s | | s m e]; cbn; try discriminate.
  - destruct s; [auto | discriminate].
  - destruct s; [eauto | discriminate].
Qed.

Lemma zero_ltb_inv (x : float) :
  ltb zero x = true ->
  x = S754_infinity false \/ exists m e, x = S754_finite false m e.
Proof.
  destruct x as [s | s | | s m e]; cbn; try discriminate.
  - destruct s; [discriminate | auto].
  - destruct s; [discriminate | eauto].
Qed.

Lemma positive_not_negative (x : float) :
  ltb zero x = true -> ltb x zero = false.
Proof.
  intros H. destruct (zero_ltb_inv x H) as [-> | (m & e & ->)]; reflexivity.
Qed.

Lemma negative_not_positive (x : float) :
  ltb x zero = true -> ltb zero x = false.
Proof.
  intros H. destruct (ltb_zero_inv x H) as [-> | (m & e & ->)]; reflexivity.
Qed.

Lemma ltb_zero_sign (x : float) :
  ltb x zero = true <-> sign x = Some true /\ is_zero x = false.
Proof.
  destruct x as [[] | [] | | [] m e]; cbn; intuition congruence.
Qed.

Lemma zero_ltb_sign (x : float) :
  ltb zero x = true <-> sign x = Some false /\ is_zero x = false.
Proof.
  destruct x as [[] | [] | | [] m e]; cbn; intuition congruence.
Qed.

(** A product that is not a NaN has the exclusive-or of the signs of its
    factors, and a zero factor gives a zero or a NaN. *)
Lemma mul_sign (x y : float) (s : bool) :
  sign (mul x y) = Some s ->
  exists sx sy, sign x = Some sx /\ sign y = Some sy /\ s = xorb sx sy.
Proof.
  destruct x as [sx | sx | | sx mx ex], y as [sy | sy | | sy my ey];
    cbn; try discriminate;
    try (intros [= <-]; exists sx, sy; auto).
  pose proof (round_keeps_sign (xorb sx sy) (Z.pos (mx * my)) (ex + ey) loc_Exact) as R.
  destruct (binary_round_aux _ _ _ _ _ _); cbn; try discriminate;
    intros [= <-]; exists sx, sy; auto.
Qed.

Lemma mul_zero_l (x y : float) :
  is_zero x = true -> is_zero (mul x y) = true \/ mul x y = S754_nan.
Proof. destruct x, y; cbn; auto; discriminate. Qed.

Lemma mul_zero_r (x y : float) :
  is_zero y = true -> is_zero (mul x y) = true \/ mul x y = S754_nan.
Proof. destruct x, y; cbn; auto; discriminate. Qed.

Lemma mul_nonzero (x y : float) (s : bool) :
  sign (mul x y) = Some s -> is_zero (mul x y) = false ->
  is_zero x = false /\ is_zero y = false.
Proof.
  intros Hs Hz. split.
  - destruct (is_zero x) eqn:E; trivial.
    destruct (mul_zero_l x y E) as [H | H]; rewrite H in *; discriminate.
  - destruct (is_zero y) eqn:E; trivial.
    destruct (mul_zero_r x y E) as [H | H]; rewrite H in *; discriminate.
Qed.

(** A negative product has one negative and one positive factor. *)
Lemma mul_negative (x y : float) :
  ltb (mul x y) zero = true ->
  (ltb x zero = true /\ ltb zero y = true) \/
  (ltb zero x = true /\ ltb y zero = true).
Proof.
  rewrite ltb_zero_sign. intros [Hs Hz].
  destruct (mul_nonzero _ _ _ Hs Hz) as [Zx Zy].
  destruct (mul_sign _ _ _ Hs) as (sx & sy & Sx & Sy & E).
  rewrite !ltb_zero_sign, !zero_ltb_sign.
  destruct sx, sy; cbn in E; try discriminate; auto.
Qed.

(** A positive product has two factors of the same sign. *)
Lemma mul_positive (x y : float) :
  ltb zero (mul x y) = true ->
  (ltb zero x = true /\ ltb zero y = true) \/
  (ltb x zero = true /\ ltb y zero = true).
Proof.
  rewrite zero_ltb_sign. intros [Hs Hz].
  destruct (mul_nonzero _ _ _ Hs Hz) as [Zx Zy].
  destruct (mul_sign _ _ _ Hs) as (sx & sy & Sx & Sy & E).
  rewrite !ltb_zero_sign, !zero_ltb_sign.
  destruct sx, sy; cbn in E; try discriminate; auto.
Qed.

(** [prod([a, b]) < 0] forces opposite signs. *)
Lemma prod2_negative (a b : float) :
  ltb (prod [a; b]) zero = true ->
  (ltb a zero = true /\ ltb zero b = true) \/
  (ltb zero a = true /\ ltb b zero = true).
Proof.
  unfold prod; cbn [fold_left]. intros H.
  destruct (mul_negative _ _ H) as [[H1 H2] | [H1 H2]].
  - destruct (mul_negative _ _ H1) as [[C _] | [_ C]]; [discriminate C | auto].
  - destruct (mul_positive _ _ H1) as [[_ C] | [C _]]; [auto | discriminate C].
Qed.

Lemma abs_positive (x : float) : ltb zero x = true -> abs x = x.
Proof.
  intros H. destruct (zero_ltb_inv x H) as [-> | (m & e & ->)]; reflexivity.
Qed.

Lemma compare_cont_refl (p : positive) : Pos.compare_cont Eq p p = Eq.
Proof. apply Pos.compare_cont_refl. Qed.

(** A float that is not a NaN equals itself. *)
Lemma eqb_refl (x : float) : sign x <> None -> eqb x x = true.
Proof.
  destruct x as [s | s | | s m e]; cbn; intros H; try congruence.
  - destruct s; reflexivity.
  - unfold eqb, SFeqb; cbn.
    destruct s; rewrite Z.compare_refl, compare_cont_refl; reflexivity.
Qed.

Lemma compare_cont_Eq_sym (p q : positive) :
  Pos.compare_cont Eq p q = Eq -> Pos.compare_cont Eq q p = Eq.
Proof.
  intros H. apply Pos.compare_eq in H. subst. apply compare_cont_refl.
Qed.

Lemma eqb_true_sym (x y : float) : eqb x y = true -> eqb y x = true.
Proof.
  unfold eqb, SFeqb.
  destruct x as [[] | [] | | [] m e], y as [[] | [] | | [] m' e'];
    cbn; try reflexivity; try discriminate;
    destruct (Z.compare_spec e e') as [-> | L | L]; try discriminate;
    rewrite Z.compare_refl;
    destruct (Pos.compare_cont Eq m m') eqn:C; try discriminate;
    rewrite (compare_cont_Eq_sym _ _ C); reflexivity.
Qed.

Lemma eqb_sym (x y : float) : eqb x y = eqb y x.
Proof.
  destruct (eqb x y) eqn:A, (eqb y x) eqn:B; trivial.
  - apply eqb_true_sym in A. congruence.
  - apply eqb_true_sym in B. congruence.
Qed.

End PyFloatFacts.

(* ================================================================= *)
(** ** Merging pairs into links *)

Section ChainFacts.

Lemma pair_eqb_eq (p q : Pair) : pair_eqb p q = true <-> p = q.
Proof.
  destruct p as [a b], q as [c d]; unfold pair_eqb; cbn.
  rewrite andb_true_iff, !String.eqb_eq. split.
  - intros [-> ->]; reflexivity.
  - intros [= -> ->]; auto.
Qed.

Lemma pop_last_none {A : Type} (l : list A) : pop_last l = None -> l = [].
Proof.
  destruct l as [|y l]; cbn; [reflexivity|].
  destruct (pop_last l) as [[? ?]|]; discriminate.
Qed.

Lemma pop_last_app {A : Type} (l r : list A) (x : A) :
  pop_last l = Some (r, x) -> l = r ++ [x].
Proof.
  revert r x. induction l as [|y l IH]; cbn; intros r x H; [discriminate|].
  destruct (pop_last l) as [[r' z]|] eqn:E.
  - injection H as <- <-. cbn. f_equal. apply IH. reflexivity.
  - injection H as <- <-. apply pop_last_none in E. subst. reflexivity.
Qed.

(** Every pop takes exactly one pair off the work-list. *)
Lemma pop_last_length {A : Type} (l r : list A) (x : A) :
  pop_last l = Some (r, x) -> List.length l = S (List.length r).
Proof.
  intros H. rewrite (pop_last_app _ _ _ H), length_app. cbn. lia.
Qed.

Lemma find_extension_In (link : list string) (ps : list Pair) l b :
  find_extension link ps = Some (l, b) -> In l ps.
Proof.
  induction ps as [|p ps IH]; cbn; [discriminate|].
  destruct (String.eqb (fst p) (link_last link)).
  - intros [= -> _]. auto.
  - destruct (String.eqb (snd p) (link_first link)).
    + intros [= -> _]. auto.
    + auto.
Qed.

Lemma find_extension_match (link : list string) (ps : list Pair) l b :
  find_extension link ps = Some (l, b) ->
  if b then fst l = link_last link else snd l = link_first link.
Proof.
  induction ps as [|p ps IH]; cbn; [discriminate|].
  destruct (String.eqb (fst p) (link_last link)) eqn:E1.
  - intros [= <- <-]. apply String.eqb_eq, E1.
  - destruct (String.eqb (snd p) (link_first link)) eqn:E2.
    + intros [= <- <-]. apply String.eqb_eq, E2.
    + auto.
Qed.

Lemma remove_first_perm (l : Pair) (ps : list Pair) :
  In l ps -> Permutation (l :: remove_first l ps) ps.
Proof.
  induction ps as [|p ps IH]; cbn; [tauto|].
  destruct (pair_eqb p l) eqn:E.
  - apply pair_eqb_eq in E. subst. reflexivity.
  - intros [-> | H].
    + rewrite (proj2 (pair_eqb_eq l l) eq_refl) in E. discriminate.
    + rewrite perm_swap. constructor. auto.
Qed.

Lemma edges_of_length (link : list string) :
  List.length (edges_of link) = pred (List.length link).
Proof.
  induction link as [|a [|b tl] IH]; cbn in *; auto.
Qed.

Lemma edges_of_cons (a : string) (link : list string) :
  link <> [] -> edges_of (a :: link) = (a, link_first link) :: edges_of link.
Proof. destruct link; [congruence | reflexivity]. Qed.

Lemma edges_of_snoc (link : list string) (x : string) :
  link <> [] ->
  edges_of (link ++ [x]) = edges_of link ++ [(link_last link, x)].
Proof.
  induction link as [|a [|b tl] IH]; intros H; [congruence | reflexivity |].
  change (edges_of ((a :: b :: tl) ++ [x]))
    with ((a, b) :: edges_of ((b :: tl) ++ [x])).
  rewrite IH by discriminate. reflexivity.
Qed.

(** One successful scan moves exactly one pair from the work-list into the
    link, where it becomes a new first or last edge. *)
Lemma extend_once_spec (ps ps' : list Pair) (link link' : list string) :
  link <> [] ->
  extend_once ps link = Some (ps', link') ->
  exists l, In l ps /\ ps' = remove_first l ps /\
            link' <> [] /\
            Permutation (edges_of link') (l :: edges_of link).
Proof.
  intros Hne. unfold extend_once.
  destruct (find_extension link ps) as [[l b]|] eqn:F; [|discriminate].
  pose proof (find_extension_In _ _ _ _ F) as Hin.
  pose proof (find_extension_match _ _ _ _ F) as Hm.
  destruct b; intros [= <- <-]; exists l; repeat split; trivial.
  - destruct link; cbn; congruence.
  - rewrite edges_of_snoc by trivial. rewrite <- Hm, <- surjective_pairing.
    symmetry. apply Permutation_cons_append.
  - discriminate.
  - rewrite edges_of_cons by trivial. rewrite <- Hm, <- surjective_pairing.
    reflexivity.
Qed.

(** Every successful scan takes exactly one pair off the work-list. *)
Lemma extend_once_length (ps ps' : list Pair) (link link' : list string) :
  extend_once ps link = Some (ps', link') ->
  List.length ps = S (List.length ps').
Proof.
  unfold extend_once.
  destruct (find_extension link ps) as [[l b]|] eqn:F; [|discriminate].
  pose proof (remove_first_perm l ps (find_extension_In _ _ _ _ F)) as P.
  apply Permutation_length in P. cbn in P.
  destruct b; intros [= <- <-]; lia.
Qed.

(** The [while True] loop ends, within one scan more than the work-list
    has pairs, and it merges into the link the pairs it removes. *)
Lemma extend_total (fuel : nat) (ps : list Pair) (link : list string) :
  List.length ps < fuel -> link <> [] ->
  exists ps' link',
    extend fuel ps link = Some (ps', link') /\
    extend_once ps' link' = None /\
    link' <> [] /\
    List.length ps' <= List.length ps /\
    Permutation (edges_of link' ++ ps') (edges_of link ++ ps).
Proof.
  revert ps link. induction fuel as [|fuel IH]; intros ps link Hf Hne; [lia|].
  cbn [extend]. destruct (extend_once ps link) as [[ps1 link1]|] eqn:E.
  - destruct (extend_once_spec _ _ _ _ Hne E) as (l & Hin & -> & Hne1 & P1).
    pose proof (extend_once_length _ _ _ _ E) as L.
    destruct (IH (remove_first l ps) link1) as (ps' & link' & R & S' & N & Le & P);
      [lia | trivial |].
    exists ps', link'. repeat split; trivial; [lia|].
    rewrite P, P1. cbn. rewrite <- (remove_first_perm l ps Hin) at 2.
    apply Permutation_middle.
  - exists ps, link. auto.
Qed.

(** The merge ends on every work-list, and the finished links partition
    the pairs. *)
Lemma chains_total (fuel : nat) (ps : list Pair) (done : list (list string)) :
  List.length ps < fuel ->
  exists cs,
    chains fuel ps done = Some (done ++ cs) /\
    Permutation (List.concat (map edges_of cs)) ps /\
    Forall (fun c => 2 <= List.length c) cs.
Proof.
  revert ps done. induction fuel as [|fuel IH]; intros ps done Hf; [lia|].
  cbn [chains]. destruct (pop_last ps) as [[rest l]|] eqn:E.
  - pose proof (pop_last_app _ _ _ E) as ->.
    rewrite length_app in Hf. cbn in Hf.
    destruct (extend_total fuel rest [fst l; snd l]) as
      (ps' & link' & R & _ & Hne & Le & P); [lia | discriminate |].
    rewrite R.
    destruct (IH ps' (done ++ [link'])) as (cs & C & PC & FC); [lia|].
    exists (link' :: cs). rewrite C, <- app_assoc. repeat split.
    + cbn. rewrite PC, P. cbn. rewrite <- surjective_pairing.
      apply Permutation_cons_append.
    + constructor; trivial.
      apply Permutation_length in P. rewrite !length_app in P.
      rewrite edges_of_length in P. cbn in P. lia.
  - apply pop_last_none in E. subst. exists []. rewrite app_nil_r.
    repeat split; constructor.
Qed.

(** More fuel than needed changes nothing. *)
Lemma extend_mono (fuel fuel' : nat) (ps : list Pair) (link : list string) r :
  extend fuel ps link = Some r -> fuel <= fuel' ->
  extend fuel' ps link = Some r.
Proof.
  revert fuel' ps link. induction fuel as [|fuel IH]; intros fuel' ps link H Le;
    [discriminate|].
  destruct fuel' as [|fuel']; [lia|]. cbn [extend] in *.
  destruct (extend_once ps link) as [[ps1 link1]|]; trivial.
  apply IH; [trivial | lia].
Qed.

Lemma chains_mono (fuel fuel' : nat) (ps : list Pair) done r :
  chains fuel ps done = Some r -> fuel <= fuel' ->
  chains fuel' ps done = Some r.
Proof.
  revert fuel' ps done. induction fuel as [|fuel IH]; intros fuel' ps done H Le;
    [discriminate|].
  destruct fuel' as [|fuel']; [lia|]. cbn [chains] in *.
  destruct (pop_last ps) as [[rest l]|]; trivial.
  destruct (extend fuel rest [fst l; snd l]) as [[rest' link]|] eqn:E;
    [|discriminate].
  rewrite (extend_mono fuel fuel' _ _ _ E) by lia.
  apply IH; [trivial | lia].
Qed.

Lemma chains_fuel (fuel : nat) (ps : list Pair) :
  List.length ps < fuel ->
  chains fuel ps [] = chains (S (List.length ps)) ps [].
Proof.
  intros H.
  destruct (chains_total (S (List.length ps)) ps [] (Nat.lt_succ_diag_r _))
    as (cs & E & _).
  rewrite E. apply (chains_mono _ _ _ _ _ E). lia.
Qed.

(** The first owner of a finished link is the source of one of the pairs,
    its last owner the destination of one. *)
Lemma link_first_edge (c : list string) :
  2 <= List.length c -> exists b, In (link_first c, b) (edges_of c).
Proof.
  destruct c as [|a [|b tl]]; cbn; try lia. intros _. eauto.
Qed.

Lemma link_last_edge (c : list string) :
  2 <= List.length c -> exists a, In (a, link_last c) (edges_of c).
Proof.
  induction c as [|a [|b tl] IH]; cbn [List.length]; try lia. intros _.
  destruct tl as [|c tl].
  - exists a. cbn. auto.
  - destruct IH as (x & Hx); [cbn; lia|].
    exists x. right. exact Hx.
Qed.

Lemma links_ends (ps : list Pair) (lks : list Pair) (first last : string) :
  links ps = Some lks -> In (first, last) lks ->
  (exists b, In (first, b) ps) /\ (exists a, In (a, last) ps).
Proof.
  unfold links. intros H Hin.
  destruct (chains_total (S (List.length ps)) ps [] (Nat.lt_succ_diag_r _))
    as (cs & E & P & F).
  rewrite E in H. cbn in H. injection H as <-.
  apply in_map_iff in Hin. destruct Hin as (c & [= <- <-] & Hc).
  rewrite Forall_forall in F. specialize (F c Hc).
  assert (incl (edges_of c) ps) as I.
  { intros e He. apply (Permutation_in _ P).
    apply in_concat. exists (edges_of c). split; [|trivial].
    apply in_map. trivial. }
  split.
  - destruct (link_first_edge c F) as (b & Hb). eauto.
  - destruct (link_last_edge c F) as (a & Ha). eauto.
Qed.

Lemma edge_coverage_aux (ps : list Pair) :
  exists cs,
    chains (S (List.length ps)) ps [] = Some cs /\
    links ps = Some (map ends cs).
Proof.
  destruct (chains_total (S (List.length ps)) ps [] (Nat.lt_succ_diag_r _))
    as (cs & E & _).
  exists cs. split; [exact E|]. unfold links. rewrite E. reflexivity.
Qed.

End ChainFacts.


(* ================================================================= *)
(** ** Dictionaries *)

Section DictFacts.

Context {K V : Type}.
Variable keq : K -> K -> bool.
Hypothesis keq_sym : forall a b, keq a b = keq b a.

Lemma get_In (k : K) (v : V) (d : dict K V) :
  get keq k d = Some v -> exists k', In (k', v) d /\ keq k' k = true.
Proof.
  induction d as [|[k0 v0] d IH]; cbn; [discriminate|].
  destruct (keq k0 k) eqn:E.
  - intros [= ->]. eauto.
  - intros H. destruct (IH H) as (k' & ? & ?). eauto.
Qed.

Lemma get_update_other (k k' : K) (f : V -> V) (dflt : V) (d : dict K V) :
  get keq k' d = None -> keq k k' = false ->
  get keq k' (update keq k f dflt d) = None.
Proof.
  intros H N. induction d as [|[k0 v0] d IH]; cbn in *.
  - rewrite N. reflexivity.
  - destruct (keq k0 k') eqn:E; [discriminate|].
    destruct (keq k0 k); cbn; rewrite E; auto.
Qed.

Lemma wf_update (k : K) (f : V -> V) (dflt : V) (d : dict K V) :
  wf keq d -> wf keq (update keq k f dflt d).
Proof.
  induction d as [|[k0 v0] d IH]; cbn; [auto|].
  intros [G W]. destruct (keq k0 k) eqn:E; cbn; split; auto.
  apply get_update_other; trivial. rewrite keq_sym. exact E.
Qed.

Lemma get_pop_other (k k' : K) (d : dict K V) :
  get keq k' d = None -> get keq k' (pop keq k d) = None.
Proof.
  induction d as [|[k0 v0] d IH]; cbn; [auto|].
  destruct (keq k0 k') eqn:E; [discriminate|].
  intros H. destruct (keq k0 k); cbn; [|rewrite E]; auto.
Qed.

Lemma wf_pop (k : K) (d : dict K V) : wf keq d -> wf keq (pop keq k d).
Proof.
  induction d as [|[k0 v0] d IH]; cbn; [auto|].
  intros [G W]. destruct (keq k0 k); cbn; auto using get_pop_other.
Qed.

Lemma pop_incl (k : K) (d : dict K V) : incl (pop keq k d) d.
Proof.
  induction d as [|[k0 v0] d IH]; cbn; [apply incl_refl|].
  destruct (keq k0 k).
  - apply incl_tl, incl_refl.
  - apply incl_cons; [left; reflexivity | apply incl_tl, IH].
Qed.

(** What an update leaves in the dictionary: the old entries, except that
    the value under the key was passed through [f]. *)
Lemma update_In (k : K) (f : V -> V) (dflt : V) (d : dict K V) k' v' :
  In (k', v') (update keq k f dflt d) ->
  In (k', v') d \/
  (exists v, In (k', v) d /\ v' = f v) \/
  (k' = k /\ v' = f dflt).
Proof.
  induction d as [|[k0 v0] d IH]; cbn.
  - intros [[= <- <-] | []]. auto.
  - destruct (keq k0 k); cbn.
    + intros [[= <- <-] | H]; eauto 6.
    + intros [[= <- <-] | H]; auto.
      destruct (IH H) as [? | [(v & ? & ?) | ?]]; eauto 6.
Qed.

(** As [update_In], with the key of the entry that was changed. *)
Lemma update_In_key (k : K) (f : V -> V) (dflt : V) (d : dict K V) k' v' :
  In (k', v') (update keq k f dflt d) ->
  In (k', v') d \/
  (exists v, In (k', v) d /\ keq k' k = true /\ v' = f v) \/
  (k' = k /\ v' = f dflt).
Proof.
  induction d as [|[k0 v0] d IH]; cbn.
  - intros [[= <- <-] | []]. auto.
  - destruct (keq k0 k) eqn:E; cbn.
    + intros [[= <- <-] | H]; eauto 7.
    + intros [[= <- <-] | H]; auto.
      destruct (IH H) as [? | [(v & ? & ? & ?) | ?]]; eauto 7.
Qed.

(** After [d[k] = f(d[k])] the key holds [f] of its old or default value. *)
Lemma get_update_same (k : K) (f : V -> V) (dflt : V) (d : dict K V) :
  keq k k = true -> exists v, get keq k (update keq k f dflt d) = Some (f v).
Proof.
  intros R. induction d as [|[k0 v0] d IH]; cbn.
  - rewrite R. eauto.
  - destruct (keq k0 k) eqn:E; cbn; rewrite E; eauto.
Qed.

(** An update leaves any key with its old value or with [f] of it. *)
Lemma get_update_or (k k' : K) (f : V -> V) (dflt : V) (d : dict K V) (s : V) :
  get keq k d = Some s ->
  get keq k (update keq k' f dflt d) = Some s \/
  get keq k (update keq k' f dflt d) = Some (f s).
Proof.
  induction d as [|[k0 v0] d IH]; cbn; [discriminate|].
  destruct (keq k0 k') eqn:E', (keq k0 k) eqn:E; cbn; rewrite E; auto.
  intros [= ->]. auto.
Qed.

End DictFacts.

(** Dictionaries keyed by strings: equal keys are the same string. *)
Section StringDictFacts.

Context {V : Type}.

Lemma string_eqb_sym (a b : string) : String.eqb a b = String.eqb b a.
Proof. apply String.eqb_sym. Qed.

Lemma get_In_string (k : string) (v : V) (d : dict string V) :
  get String.eqb k d = Some v -> In (k, v) d.
Proof.
  intros H. destruct (get_In _ _ _ _ H) as (k' & I & E).
  apply String.eqb_eq in E. subst. exact I.
Qed.

Lemma In_get_string (k : string) (v : V) (d : dict string V) :
  wf String.eqb d -> In (k, v) d -> get String.eqb k d = Some v.
Proof.
  induction d as [|[k0 v0] d IH]; cbn; [tauto|].
  intros [G W] [[= -> ->] | I].
  - rewrite String.eqb_refl. reflexivity.
  - destruct (String.eqb_spec k0 k) as [-> | N]; auto.
    rewrite (IH W I) in G. discriminate.
Qed.

Lemma get_none_not_In (k : string) (d : dict string V) :
  get String.eqb k d = None -> forall v, ~ In (k, v) d.
Proof.
  induction d as [|[k0 v0] d IH]; cbn; [tauto|].
  destruct (String.eqb_spec k0 k) as [-> | N]; [discriminate|].
  intros H v [[= E _] | I]; [congruence | exact (IH H v I)].
Qed.

(** After [d.pop(k, None)] the key is gone. *)
Lemma get_pop_same (k : string) (d : dict string V) :
  wf String.eqb d -> get String.eqb k (pop String.eqb k d) = None.
Proof.
  induction d as [|[k0 v0] d IH]; cbn; [auto|].
  intros [G W]. destruct (String.eqb_spec k0 k) as [-> | N]; [exact G|].
  cbn. destruct (String.eqb_spec k0 k); [contradiction | auto].
Qed.

Lemma get_update_eq (k : string) (f : V -> V) (dflt : V) (d : dict string V) :
  get String.eqb k (update String.eqb k f dflt d)
  = Some (f (match get String.eqb k d with Some v => v | None => dflt end)).
Proof.
  induction d as [|[k0 v0] d IH]; cbn.
  - rewrite String.eqb_refl. reflexivity.
  - destruct (String.eqb k0 k) eqn:E; cbn; rewrite E; auto.
Qed.

Lemma get_update_neq (k k' : string) (f : V -> V) (dflt : V) (d : dict string V) :
  k' <> k ->
  get String.eqb k' (update String.eqb k f dflt d) = get String.eqb k' d.
Proof.
  intros N. induction d as [|[k0 v0] d IH]; cbn.
  - rewrite (proj2 (String.eqb_neq k k')); [reflexivity | congruence].
  - destruct (String.eqb_spec k0 k) as [-> | N0]; cbn.
    + rewrite (proj2 (String.eqb_neq k k')); [reflexivity | congruence].
    + rewrite IH. reflexivity.
Qed.

End StringDictFacts.

(* ================================================================= *)
(** ** [construct_balance_changes] returns dictionaries *)

Section ExtractorFacts.

Lemma wf2_nil {X : Type} : wf2 (@nil (string * dict string X)).
Proof. split; [exact I | intros ? ? []]. Qed.

Lemma accumulate_wf2 (sign : Z) (st st' : Changes * Decimals) (b : TokenBalance) :
  wf2 (fst st) -> accumulate sign st b = Ok st' -> wf2 (fst st').
Proof.
  destruct st as [changes decs]. unfold accumulate.
  destruct (amount_int b) as [n|e]; cbn; [|discriminate].
  intros [W I] [= <-]. cbn. split.
  - apply wf_update; trivial. apply string_eqb_sym.
  - intros k v H. apply update_In in H.
    destruct H as [H | [(v0 & H & ->) | [_ ->]]].
    + eauto.
    + apply wf_update; [apply string_eqb_sym | eauto].
    + cbn. auto.
Qed.

Lemma accumulate_all_wf2 (sign : Z) (bs : list TokenBalance)
  (st st' : Changes * Decimals) :
  wf2 (fst st) -> accumulate_all sign st bs = Ok st' -> wf2 (fst st').
Proof.
  revert st. induction bs as [|b bs IH]; cbn; intros st W.
  - intros [= <-]. exact W.
  - destruct (accumulate sign st b) as [st1|e] eqn:E; cbn; [|discriminate].
    apply IH. eapply accumulate_wf2; eauto.
Qed.

Lemma scale_get_none (decs : Decimals) (v : dict string Z) v' (x : string) :
  scale decs v = Ok v' -> get String.eqb x v = None ->
  get String.eqb x v' = None.
Proof.
  revert v'. induction v as [|[x0 y0] v IH]; cbn; intros v'.
  - intros [= <-]. reflexivity.
  - destruct (String.eqb x0 x) eqn:E; [discriminate|].
    destruct (y0 =? 0)%Z; [auto|].
    destruct (get String.eqb x0 decs) as [d|]; cbn; [|discriminate].
    destruct (PyFloat.truediv y0 _) as [q|]; cbn; [|discriminate].
    destruct (scale decs v) as [rest|]; cbn; [|discriminate].
    intros [= <-] H. cbn. rewrite E. auto.
Qed.

Lemma scale_wf (decs : Decimals) (v : dict string Z) v' :
  scale decs v = Ok v' -> wf String.eqb v -> wf String.eqb v'.
Proof.
  revert v'. induction v as [|[x0 y0] v IH]; cbn; intros v'.
  - intros [= <-]. trivial.
  - destruct (y0 =? 0)%Z; [intros H [_ W]; auto|].
    destruct (get String.eqb x0 decs) as [d|]; cbn; [|discriminate].
    destruct (PyFloat.truediv y0 _) as [q|]; cbn; [|discriminate].
    destruct (scale decs v) as [rest|] eqn:S; cbn; [|discriminate].
    intros [= <-] [G W]. cbn. split; auto.
    eapply scale_get_none; eauto.
Qed.

Lemma scale_all_get_none (decs : Decimals) (changes : Changes) d (k : string) :
  scale_all decs changes = Ok d -> get String.eqb k changes = None ->
  get String.eqb k d = None.
Proof.
  revert d. induction changes as [|[k0 v0] changes IH]; cbn; intros d.
  - intros [= <-]. reflexivity.
  - destruct (String.eqb k0 k) eqn:E; [discriminate|].
    destruct v0 as [|e0 v0]; [auto|].
    destruct (scale decs (e0 :: v0)) as [v'|]; cbn; [|discriminate].
    destruct (scale_all decs changes) as [rest|]; cbn; [|discriminate].
    intros [= <-] H. cbn. rewrite E. auto.
Qed.

Lemma scale_all_wf2 (decs : Decimals) (changes : Changes) d :
  scale_all decs changes = Ok d -> wf2 changes -> wf2 d.
Proof.
  revert d. induction changes as [|[k0 v0] changes IH]; cbn; intros d.
  - intros [= <-] _. split; [exact I | intros ? ? []].
  - intros H [[G W] I].
    assert (wf2 changes) as W2 by (split; [trivial | intros; eapply I; right; eauto]).
    destruct v0 as [|e0 v0]; [auto|].
    destruct (scale decs (e0 :: v0)) as [v'|] eqn:S; cbn in H; [|discriminate].
    destruct (scale_all decs changes) as [rest|] eqn:SA; cbn in H; [|discriminate].
    injection H as <-. destruct (IH rest eq_refl W2) as [Wr Ir]. split.
    + cbn. split; trivial. eapply scale_all_get_none; eauto.
    + intros k v [[= <- <-] | H].
      * eapply scale_wf; eauto. apply (I k0). left. reflexivity.
      * eauto.
Qed.

Lemma construct_balance_changes_wf2 (transaction : Transaction) d :
  construct_balance_changes transaction = Ok d -> wf2 d.
Proof.
  unfold construct_balance_changes.
  destruct (accumulate_all 1 _ _) as [st|] eqn:A; cbn; [|discriminate].
  destruct (accumulate_all (-1) st _) as [[changes decs]|] eqn:B; cbn;
    [|discriminate].
  intros H. apply (scale_all_wf2 _ _ _ H).
  change changes with (fst (changes, decs)).
  eapply accumulate_all_wf2; [|exact B].
  eapply accumulate_all_wf2; [|exact A].
  exact wf2_nil.
Qed.

Lemma pop_wf2 {X : Type} (k : string) (d : dict string (dict string X)) :
  wf2 d -> wf2 (pop String.eqb k d).
Proof.
  intros [W I]. split.
  - apply wf_pop, W.
  - intros k' v H. apply (I k'). apply (pop_incl _ _ _ _ H).
Qed.

(** *** What the accumulation loops compute *)

Lemma change_of_entry (changes : Changes) (o m : string) :
  change_of changes o m
  = entry_of (match get String.eqb o changes with Some v => v | None => [] end) m.
Proof. unfold change_of. destruct (get String.eqb o changes); reflexivity. Qed.

Lemma accumulate_inv (sign : Z) (st st' : Changes * Decimals) (b : TokenBalance) :
  accumulate sign st b = Ok st' ->
  amount_int b = Ok (raw_amount b) /\
  fst st' = update String.eqb (owner b)
              (update String.eqb (mint b)
                 (fun y => y + sign * raw_amount b)%Z 0%Z) [] (fst st) /\
  snd st' = set String.eqb (mint b) (decimals b) (snd st).
Proof.
  destruct st as [changes decs]. unfold accumulate, raw_amount.
  destruct (amount_int b) as [n|e]; cbn; [|discriminate].
  intros [= <-]. auto.
Qed.

Lemma accumulate_change (sign : Z) (st st' : Changes * Decimals)
  (b : TokenBalance) (o m : string) :
  accumulate sign st b = Ok st' ->
  change_of (fst st') o m
  = (change_of (fst st) o m
     + if String.eqb (owner b) o && String.eqb (mint b) m
       then sign * raw_amount b else 0)%Z.
Proof.
  intros H. destruct (accumulate_inv _ _ _ _ H) as (_ & -> & _).
  rewrite !change_of_entry.
  destruct (String.eqb_spec (owner b) o) as [<- | No]; cbn [andb].
  - rewrite get_update_eq. unfold entry_of.
    destruct (String.eqb_spec (mint b) m) as [<- | Nm].
    + rewrite get_update_eq. reflexivity.
    + rewrite get_update_neq by congruence. lia.
  - rewrite get_update_neq by congruence. lia.
Qed.

Lemma accumulate_all_change (sign : Z) (bs : list TokenBalance)
  (st st' : Changes * Decimals) (o m : string) :
  accumulate_all sign st bs = Ok st' ->
  change_of (fst st') o m = (change_of (fst st) o m + sign * total o m bs)%Z.
Proof.
  revert st. induction bs as [|b bs IH]; cbn; intros st.
  - intros [= <-]. lia.
  - destruct (accumulate sign st b) as [st1|e] eqn:E; cbn; [|discriminate].
    intros H. rewrite (IH _ H), (accumulate_change _ _ _ _ o m E).
    destruct (String.eqb (owner b) o && String.eqb (mint b) m); lia.
Qed.

(** The owners of the accumulator are the owners met so far, and none of
    them has an empty mapping. *)
Lemma accumulate_all_owners (sign : Z) (bs : list TokenBalance)
  (st st' : Changes * Decimals) (o : string) :
  accumulate_all sign st bs = Ok st' ->
  (get String.eqb o (fst st') <> None <->
   get String.eqb o (fst st) <> None \/ exists b, In b bs /\ owner b = o).
Proof.
  revert st. induction bs as [|b bs IH]; cbn; intros st.
  - intros [= <-]. split; [auto|]. intros [H | (b & I & _)]; [exact H | destruct I].
  - destruct (accumulate sign st b) as [st1|e] eqn:E; cbn; [|discriminate].
    intros H. rewrite (IH _ H).
    destruct (accumulate_inv _ _ _ _ E) as (_ & -> & _).
    destruct (String.eqb_spec (owner b) o) as [<- | No].
    + rewrite get_update_eq. split; intros _; [right; eauto | left; discriminate].
    + rewrite get_update_neq by congruence. split.
      * intros [G | (b' & I & O)]; eauto.
      * intros [G | (b' & [<- | I] & O)]; eauto; contradiction.
Qed.

Lemma update_nonempty {V : Type} (k : string) (f : V -> V) (dflt : V)
  (d : dict string V) : update String.eqb k f dflt d <> [].
Proof. destruct d as [|[k0 v0] d]; cbn; [|destruct (String.eqb k0 k)]; discriminate. Qed.

Lemma accumulate_all_nonempty (sign : Z) (bs : list TokenBalance)
  (st st' : Changes * Decimals) :
  accumulate_all sign st bs = Ok st' ->
  (forall k v, In (k, v) (fst st) -> v <> []) ->
  forall k v, In (k, v) (fst st') -> v <> [].
Proof.
  revert st. induction bs as [|b bs IH]; cbn; intros st.
  - intros [= <-]. auto.
  - destruct (accumulate sign st b) as [st1|e] eqn:E; cbn; [|discriminate].
    intros H Inv. apply (IH _ H).
    destruct (accumulate_inv _ _ _ _ E) as (_ & -> & _).
    intros k v I. apply update_In in I.
    destruct I as [I | [(v0 & _ & ->) | [_ ->]]]; eauto using update_nonempty.
Qed.

Lemma accumulate_all_decimals (sign : Z) (bs : list TokenBalance)
  (st st' : Changes * Decimals) (m : string) :
  accumulate_all sign st bs = Ok st' ->
  get String.eqb m (snd st') = last_decimals m bs (get String.eqb m (snd st)).
Proof.
  unfold last_decimals. revert st. induction bs as [|b bs IH]; cbn; intros st.
  - intros [= <-]. reflexivity.
  - destruct (accumulate sign st b) as [st1|e] eqn:E; cbn; [|discriminate].
    intros H. rewrite (IH _ H).
    destruct (accumulate_inv _ _ _ _ E) as (_ & _ & ->). unfold set.
    destruct (String.eqb_spec (mint b) m) as [<- | Nm].
    + rewrite get_update_eq. reflexivity.
    + rewrite get_update_neq by congruence. reflexivity.
Qed.

(** *** What the comprehensions keep *)

Lemma scale_get (decs : Decimals) (v : dict string Z) v' (m : string) :
  wf String.eqb v -> scale decs v = Ok v' ->
  if (entry_of v m =? 0)%Z then get String.eqb m v' = None
  else exists dcm q,
         get String.eqb m decs = Some dcm /\
         PyFloat.truediv (entry_of v m) (10 ^ Z.of_N dcm) = Ok q /\
         get String.eqb m v' = Some q.
Proof.
  unfold entry_of. revert v'. induction v as [|[x y] v IH]; cbn; intros v' W.
  - intros [= <-]. reflexivity.
  - destruct W as [G W]. destruct (Z.eqb_spec y 0) as [-> | Ny].
    + intros H. specialize (IH v' W H).
      destruct (String.eqb_spec x m) as [<- | Nx]; [|exact IH].
      cbn. rewrite G in IH. exact IH.
    + destruct (get String.eqb x decs) as [dcm|] eqn:D; cbn; [|discriminate].
      destruct (PyFloat.truediv y _) as [q|] eqn:Q; cbn; [|discriminate].
      destruct (scale decs v) as [rest|] eqn:S; cbn; [|discriminate].
      intros [= <-]. cbn. specialize (IH rest W eq_refl).
      destruct (String.eqb_spec x m) as [<- | Nx]; [|exact IH].
      destruct (Z.eqb_spec y 0); [contradiction|]. eauto.
Qed.

Lemma scale_all_get (decs : Decimals) (changes : Changes) d (o : string) :
  wf String.eqb changes -> (forall k v, In (k, v) changes -> v <> []) ->
  scale_all decs changes = Ok d ->
  match get String.eqb o changes with
  | Some v => exists v', scale decs v = Ok v' /\ get String.eqb o d = Some v'
  | None => get String.eqb o d = None
  end.
Proof.
  revert d. induction changes as [|[k v] changes IH]; cbn; intros d W Ne.
  - intros [= <-]. reflexivity.
  - destruct W as [G W].
    assert (v <> []) as Nv by (apply (Ne k); auto).
    destruct v as [|e v]; [contradiction|].
    destruct (scale decs (e :: v)) as [v'|] eqn:S; cbn; [|discriminate].
    destruct (scale_all decs changes) as [rest|] eqn:SA; cbn; [|discriminate].
    intros [= <-]. cbn.
    destruct (String.eqb_spec k o) as [<- | Nk]; [eauto|].
    apply IH; trivial. intros k' w I. apply (Ne k'). right. exact I.
Qed.

End ExtractorFacts.

(* ================================================================= *)
(** ** Swap legs *)

Section LegFacts.

(** A swap leg has two entries, one below zero and one above. *)
Lemma is_leg_inv (pm : dict string PyFloat.float) :
  is_leg pm = true ->
  exists m1 v1 m2 v2,
    pm = [(m1, v1); (m2, v2)] /\
    ((lt_zero v1 = true /\ gt_zero v2 = true) \/
     (gt_zero v1 = true /\ lt_zero v2 = true)).
Proof.
  unfold is_leg. rewrite andb_true_iff, Nat.eqb_eq. intros [L P].
  destruct pm as [|[m1 v1] [|[m2 v2] [|e pm]]]; try discriminate L.
  exists m1, v1, m2, v2. split; [reflexivity|].
  apply PyFloatFacts.prod2_negative. exact P.
Qed.

Lemma gt_zero_not_lt (v : PyFloat.float) : gt_zero v = true -> lt_zero v = false.
Proof. apply PyFloatFacts.positive_not_negative. Qed.

Lemma lt_zero_not_gt (v : PyFloat.float) : lt_zero v = true -> gt_zero v = false.
Proof. apply PyFloatFacts.negative_not_positive. Qed.

Lemma for_break_only (test : PyFloat.float -> bool) items t v (b : Binding) :
  only test items t v -> for_break test items b = Some (t, v).
Proof.
  intros (l1 & l2 & -> & T & F). apply Forall_app in F. destruct F as [F1 _].
  revert b. induction F1 as [|[t0 v0] l1 H0 F1 IH]; intros b; cbn.
  - rewrite T. reflexivity.
  - cbn in H0. rewrite H0. apply IH.
Qed.

(** In a swap leg exactly one entry is positive and exactly one negative,
    and they are different entries. *)
Lemma leg_entries (pm : dict string PyFloat.float) :
  is_leg pm = true ->
  exists tg vg tr vr,
    only lt_zero pm tg vg /\ only gt_zero pm tr vr /\
    (pm = [(tg, vg); (tr, vr)] \/ pm = [(tr, vr); (tg, vg)]).
Proof.
  intros H. destruct (is_leg_inv pm H) as (m1 & v1 & m2 & v2 & -> & [[A B] | [A B]]).
  - exists m1, v1, m2, v2. repeat split; auto.
    + exists [], [(m2, v2)]. repeat split; trivial.
      repeat constructor. cbn. apply gt_zero_not_lt, B.
    + exists [(m1, v1)], []. repeat split; trivial.
      repeat constructor. cbn. apply lt_zero_not_gt, A.
  - exists m2, v2, m1, v1. repeat split; auto.
    + exists [(m1, v1)], []. repeat split; trivial.
      repeat constructor. cbn. apply gt_zero_not_lt, A.
    + exists [], [(m2, v2)]. repeat split; trivial.
      repeat constructor. cbn. apply lt_zero_not_gt, B.
Qed.

(** The two mints of a swap leg are different strings. *)
Lemma leg_mints_differ (pm : dict string PyFloat.float) tg vg tr vr :
  wf String.eqb pm ->
  pm = [(tg, vg); (tr, vr)] \/ pm = [(tr, vr); (tg, vg)] ->
  String.eqb tr tg = false.
Proof.
  intros W [-> | ->]; cbn in W; destruct W as [G _].
  - destruct (String.eqb tr tg); [discriminate | reflexivity].
  - rewrite String.eqb_sym. destruct (String.eqb tg tr); [discriminate | reflexivity].
Qed.

End LegFacts.

(* ================================================================= *)
(** ** Who ends up in [token_change_owners] and in [pairs] *)

Section MatcherFacts.

Lemma key_eqb_sym (a b : TransferKey) : key_eqb a b = key_eqb b a.
Proof.
  unfold key_eqb. rewrite String.eqb_sym, PyFloatFacts.eqb_sym. reflexivity.
Qed.

Lemma record_change_slots (P : string -> Prop) (o : string) tco entry :
  P o -> slots_from P tco -> slots_from P (record_change o tco entry).
Proof.
  intros Po Inv k s0 s1 H. destruct entry as [m change].
  unfold record_change in H. apply update_In in H.
  assert (forall v, (forall o', fst v = Some o' -> P o') /\
                    (forall o', snd v = Some o' -> P o') ->
                    set_slot change o v = (s0, s1) ->
                    (forall o', s0 = Some o' -> P o') /\
                    (forall o', s1 = Some o' -> P o')) as HS.
  { intros [a b] [Ha Hb]. unfold set_slot.
    destruct (PyFloat.ltb change PyFloat.zero); cbn; intros [= <- <-];
      split; trivial; intros o' [= <-]; exact Po. }
  destruct H as [H | [([a b] & H & E) | [_ E]]].
  - exact (Inv _ _ _ H).
  - apply (HS (a, b)); [exact (Inv _ _ _ H) | congruence].
  - apply (HS (None, None)); [split; discriminate | congruence].
Qed.

Lemma record_changes_slots (P : string -> Prop) (o : string) pm tco :
  P o -> slots_from P tco -> slots_from P (fold_left (record_change o) pm tco).
Proof.
  intros Po. revert tco. induction pm as [|e pm IH]; cbn; intros tco Inv; trivial.
  apply IH. apply record_change_slots; trivial.
Qed.

Lemma record_owner_slots (P : string -> Prop) (o : string) pm tco :
  (is_leg pm = true -> P o) -> slots_from P tco ->
  slots_from P (record_owner tco (o, pm)).
Proof.
  intros Po Inv. cbn. destruct (is_leg pm); trivial.
  apply record_changes_slots; auto.
Qed.

Lemma record_owners_slots (d : BalanceChanges) (l : BalanceChanges) tco :
  incl l d -> slots_from (leg_owner d) tco ->
  slots_from (leg_owner d) (fold_left record_owner l tco).
Proof.
  revert tco. induction l as [|[o pm] l IH]; cbn [fold_left]; intros tco I Inv;
    trivial.
  apply IH.
  - intros e He. apply I. right. exact He.
  - apply record_owner_slots; trivial.
    intros L. exists pm. split; trivial. apply I. left. reflexivity.
Qed.

(** Only swap-leg owners are written in [token_change_owners]. *)
Lemma token_change_owners_slots (d : BalanceChanges) :
  slots_from (leg_owner d) (token_change_owners d).
Proof.
  apply record_owners_slots; [apply incl_refl | intros k s0 s1 []].
Qed.

(** [pairs] keeps, in order, exactly the slot lists with both slots set to
    non-empty owners. *)
Lemma pairs_complete (tco : TokenChangeOwners) :
  map (fun p => (Some (fst p), Some (snd p))) (pairs tco)
  = filter complete (values tco).
Proof.
  unfold values, complete.
  induction tco as [|[k [[a|] [b|]]] tco IH]; cbn in *;
    rewrite ?andb_false_r; trivial.
  destruct (negb (String.eqb a "") && negb (String.eqb b "")); cbn;
    rewrite <- IH; reflexivity.
Qed.

Lemma pairs_In (tco : TokenChangeOwners) (a b : string) :
  In (a, b) (pairs tco) <->
  exists k, In (k, (Some a, Some b)) tco /\ a <> "" /\ b <> "".
Proof.
  induction tco as [|[k [s0 s1]] tco IH]; cbn.
  - split; [tauto | intros (k & [] & _)].
  - assert ((exists k0, ((k, (s0, s1)) = (k0, (Some a, Some b)) \/
                        In (k0, (Some a, Some b)) tco) /\ a <> "" /\ b <> "")
            <-> ((s0 = Some a /\ s1 = Some b /\ a <> "" /\ b <> "") \/
                 In (a, b) (pairs tco))) as E.
    { rewrite IH. split.
      - intros (k0 & [[= -> -> ->] | H] & Na & Nb); eauto 6.
      - intros [(-> & -> & Na & Nb) | (k0 & H & Na & Nb)]; eauto 6. }
    rewrite E. clear E IH.
    destruct s0 as [a0|], s1 as [b0|];
      try (split; [auto | intros [(A & B & _) | H]; [discriminate | trivial]]).
    destruct (String.eqb_spec a0 ""), (String.eqb_spec b0 ""); cbn;
      (split; [intros H | intros [([= ->] & [= ->] & Na & Nb) | H]]);
      auto; try contradiction.
    destruct H as [[= -> ->] | H]; auto.
Qed.

(** Both owners of a pair are swap-leg owners. *)
Lemma pairs_leg_owners (d : BalanceChanges) (a b : string) :
  In (a, b) (pairs (token_change_owners d)) -> leg_owner d a /\ leg_owner d b.
Proof.
  intros H. apply pairs_In in H. destruct H as (k & H & _).
  destruct (token_change_owners_slots d _ _ _ H) as [A B]. auto.
Qed.

(** The first and last owner of every link are swap-leg owners. *)
Lemma links_leg_owners (d : BalanceChanges) lks (first last : string) :
  links (pairs (token_change_owners d)) = Some lks -> In (first, last) lks ->
  leg_owner d first /\ leg_owner d last.
Proof.
  intros L H. destruct (links_ends _ _ _ _ L H) as [(b & Hb) (a & Ha)].
  split; [apply (pairs_leg_owners d first b Hb) | apply (pairs_leg_owners d a last Ha)].
Qed.

Lemma wf_token_change_owners (d : BalanceChanges) :
  wf key_eqb (token_change_owners d).
Proof.
  unfold token_change_owners.
  assert (forall l tco, wf key_eqb tco -> wf key_eqb (fold_left record_owner l tco)) as G.
  { induction l as [|[o pm] l IH]; cbn [fold_left]; intros tco W; trivial.
    apply IH. cbn. destruct (is_leg pm); trivial.
    clear IH. revert tco W. induction pm as [|[m c] pm IH]; cbn; intros tco W; trivial.
    apply IH. apply wf_update; [apply key_eqb_sym | trivial]. }
  apply G. exact I.
Qed.

End MatcherFacts.

(* ================================================================= *)
(** ** Classification *)

Section ClassifierFacts.

Variables signature signer : string.

Lemma classify_only (d : BalanceChanges) (st : MainState) (first last : string)
  fc lc tH vH tT vT :
  get String.eqb first d = Some fc ->
  get String.eqb last d = Some lc ->
  only gt_zero fc tH vH ->
  only lt_zero lc tT vT ->
  classify signature signer d st (first, last)
  = Ok {| records := records st ++ verdict signature signer tH vH tT vT;
          first_bound := Some (tH, vH);
          last_bound := Some (tT, vT) |}.
Proof.
  intros Gf Gl Of Ol. unfold classify. rewrite Gf, Gl. cbn.
  rewrite (for_break_only _ _ _ _ _ Of), (for_break_only _ _ _ _ _ Ol). cbn.
  unfold verdict. destruct (String.eqb tH tT); [reflexivity|].
  rewrite app_nil_r. reflexivity.
Qed.

(** The entries the two loops stop at when both ends are swap legs. *)
Lemma leg_owner_entries (d : BalanceChanges) (o : string) :
  wf2 d -> leg_owner d o ->
  exists pm tg vg tr vr,
    get String.eqb o d = Some pm /\
    only lt_zero pm tg vg /\ only gt_zero pm tr vr /\
    String.eqb tr tg = false.
Proof.
  intros [W I] (pm & Hin & L).
  destruct (leg_entries pm L) as (tg & vg & tr & vr & Og & Or & Shape).
  exists pm, tg, vg, tr, vr. repeat split; trivial.
  - apply In_get_string; trivial.
  - apply (leg_mints_differ pm tg vg tr vr); [exact (I _ _ Hin) | exact Shape].
Qed.

Lemma classify_legs (d : BalanceChanges) (st : MainState) (first last : string) :
  wf2 d -> leg_owner d first -> leg_owner d last ->
  exists st',
    classify signature signer d st (first, last) = Ok st' /\
    records st' = records st ++ added signature signer d (first, last).
Proof.
  intros W Lf Ll.
  destruct (leg_owner_entries d first W Lf) as (fc & _ & _ & tH & vH & Gf & _ & Of & _).
  destruct (leg_owner_entries d last W Ll) as (lc & tT & vT & _ & _ & Gl & Ol & _ & _).
  unfold added.
  rewrite (classify_only d initial first last fc lc tH vH tT vT Gf Gl Of Ol).
  rewrite (classify_only d st first last fc lc tH vH tT vT Gf Gl Of Ol).
  eexists. split; reflexivity.
Qed.

(** A link that ends at the swap leg it starts from adds nothing. *)
Lemma classify_closed (d : BalanceChanges) (st : MainState) (o : string) :
  wf2 d -> leg_owner d o ->
  exists st',
    classify signature signer d st (o, o) = Ok st' /\
    records st' = records st.
Proof.
  intros W L.
  destruct (leg_owner_entries d o W L) as (pm & tg & vg & tr & vr & G & Og & Or & N).
  rewrite (classify_only d st o o pm pm tr vr tg vg G G Or Og).
  eexists. split; [reflexivity|]. cbn. unfold verdict. rewrite N.
  apply app_nil_r.
Qed.

Lemma classify_all_legs (d : BalanceChanges) (lks : list Pair) (st : MainState) :
  wf2 d ->
  (forall first last, In (first, last) lks ->
     leg_owner d first /\ leg_owner d last) ->
  exists st',
    classify_all signature signer d st lks = Ok st' /\
    records st' = records st ++ flat_map (added signature signer d) lks.
Proof.
  intros W. revert st. induction lks as [|[first last] lks IH]; intros st L.
  - exists st. cbn. rewrite app_nil_r. auto.
  - destruct (L first last (or_introl eq_refl)) as [Lf Ll].
    destruct (classify_legs d st first last W Lf Ll) as (st1 & C & R).
    destruct (IH st1) as (st' & C' & R').
    { intros f l H. apply L. right. exact H. }
    exists st'. cbn [classify_all]. rewrite C. cbn. split; trivial.
    rewrite R', R, <- app_assoc. reflexivity.
Qed.

(** What [detect] appends does not depend on the state it starts from. *)
Lemma detect_appends (d : BalanceChanges) (st : MainState) :
  wf2 d ->
  exists st' lks,
    links (pairs (token_change_owners d)) = Some lks /\
    detect signature signer d st = Ok st' /\
    records st' = records st ++ flat_map (added signature signer d) lks.
Proof.
  intros W. unfold detect.
  destruct (chains_total (S (List.length (pairs (token_change_owners d))))
              (pairs (token_change_owners d)) [] (Nat.lt_succ_diag_r _))
    as (cs & E & _).
  assert (links (pairs (token_change_owners d)) = Some (map ends cs)) as L
    by (unfold links; rewrite E; reflexivity).
  rewrite L. cbn.
  destruct (classify_all_legs d (map ends cs) st W) as (st' & C & R).
  { intros f l H. exact (links_leg_owners d _ f l L H). }
  exists st', (map ends cs). auto.
Qed.

End ClassifierFacts.

(* ================================================================= *)
(** * The claims *)

(** ** C2: classification of one link *)



(** ** C3: closed loops *)

(** C3.  In every transaction, a link whose first owner is also its last
    owner adds no record: that owner is a swap leg, its positive entry and
    its negative entry are its two entries, and their mints differ. *)
Theorem closed_loop_no_record (transaction : Transaction)
  (signature signer : string) (changes : BalanceChanges)
  (lks : list Pair) (o : string) (st : MainState) :
  construct_balance_changes transaction = Ok changes ->
  links (pairs (token_change_owners (pop String.eqb signer changes))) = Some lks ->
  In (o, o) lks ->
  (exists pm tg vg tr vr,
     get String.eqb o (pop String.eqb signer changes) = Some pm /\
     (pm = [(tg, vg); (tr, vr)] \/ pm = [(tr, vr); (tg, vg)]) /\
     lt_zero vg = true /\ gt_zero vr = true /\ tr <> tg) /\
  exists st',
    classify signature signer (pop String.eqb signer changes) st (o, o) = Ok st' /\
    records st' = records st.
Proof.
  intros C L H.
  pose proof (pop_wf2 signer changes (construct_balance_changes_wf2 _ _ C)) as W.
  destruct (links_leg_owners _ _ _ _ L H) as [Lo _].
  split; [|apply classify_closed; trivial].
  destruct Lo as (pm & Hin & Leg).
  destruct (leg_entries pm Leg) as (tg & vg & tr & vr & Og & Or & Shape).
  exists pm, tg, vg, tr, vr.
  destruct W as [W I].
  split; [apply In_get_string; trivial|].
  split; [exact Shape|].
  destruct Og as (? & ? & _ & Tg & _), Or as (? & ? & _ & Tr & _).
  repeat split; trivial.
  pose proof (leg_mints_differ pm tg vg tr vr (I _ _ Hin) Shape) as N.
  intros ->. rewrite String.eqb_refl in N. discriminate.
Qed.

Lemma closed_loop_no_record_witness :
  (exists pm tg vg tr vr,
     get String.eqb "Q"
       (pop String.eqb "S"
          [("P", [("tokenA", PyFloat.neg thirty); ("tokenB", thirty)]);
           ("Q", [("tokenA", thirty); ("tokenB", PyFloat.neg thirty)])])
     = Some pm /\
     (pm = [(tg, vg); (tr, vr)] \/ pm = [(tr, vr); (tg, vg)]) /\
     lt_zero vg = true /\ gt_zero vr = true /\ tr <> tg) /\
  exists st',
    classify "sig" "S"
      (pop String.eqb "S"
         [("P", [("tokenA", PyFloat.neg thirty); ("tokenB", thirty)]);
          ("Q", [("tokenA", thirty); ("tokenB", PyFloat.neg thirty)])])
      initial ("Q", "Q") = Ok st' /\
    records st' = records initial.
Proof.
  apply (closed_loop_no_record two_owner_swap "sig" "S" _ [("Q", "Q")] "Q" initial).
  - vm_compute. reflexivity.
  - vm_compute. reflexivity.
  - left. reflexivity.
Defined.

(** ** C4: every pair ends up in exactly one link *)

(** C4.  On every list of pairs the merge ends with finished links whose
    consecutive owners, taken together, are the input pairs, each exactly
    once; so the numbers of pairs merged into the links add up to the
    number of input pairs. *)
Theorem edge_coverage (ps : list Pair) :
  exists cs,
    chains (S (List.length ps)) ps [] = Some cs /\
    links ps = Some (map ends cs) /\
    Permutation (List.concat (map edges_of cs)) ps /\
    list_sum (map (fun c => List.length (edges_of c)) cs) = List.length ps.
Proof.
  destruct (chains_total (S (List.length ps)) ps [] (Nat.lt_succ_diag_r _))
    as (cs & E & P & _).
  cbn [app] in E. exists cs. repeat split; trivial.
  - unfold links. rewrite E. reflexivity.
  - rewrite <- (Permutation_length P), length_concat, map_map. reflexivity.
Qed.

(** ** C9: the merge terminates *)

(** C9.  On every finite list of pairs, self-loops included, the merge
    returns its links as soon as it is given more fuel than the list has
    pairs, and extra fuel does not change them. *)
Theorem chain_builder_terminates (ps : list Pair) (fuel : nat) :
  List.length ps < fuel ->
  exists cs,
    chains fuel ps [] = Some cs /\ links ps = Some (map ends cs).
Proof.
  intros H. rewrite (chains_fuel fuel ps H).
  destruct (edge_coverage_aux ps) as (cs & E & L).
  exists cs. auto.
Qed.

Lemma chain_builder_terminates_witness :
  exists cs,
    chains 4 [("x", "x"); ("a", "b"); ("b", "a")] [] = Some cs /\
    links [("x", "x"); ("a", "b"); ("b", "a")] = Some (map ends cs).
Proof.
  apply (chain_builder_terminates [("x", "x"); ("a", "b"); ("b", "a")] 4).
  cbn. lia.
Defined.

(** ** C7: the signer *)

(** C7.  Once the signer is popped from the balance changes of a
    transaction, it is no key of them, no swap-leg owner, no owner of a
    pair, and neither the first nor the last owner of a link. *)
Theorem signer_excluded (transaction : Transaction) (signer : string)
  (changes : BalanceChanges) :
  construct_balance_changes transaction = Ok changes ->
  let d := pop String.eqb signer changes in
  get String.eqb signer d = None /\
  ~ leg_owner d signer /\
  (forall a b, In (a, b) (pairs (token_change_owners d)) ->
     a <> signer /\ b <> signer) /\
  (forall lks first last,
     links (pairs (token_change_owners d)) = Some lks ->
     In (first, last) lks -> first <> signer /\ last <> signer).
Proof.
  intros C d.
  pose proof (construct_balance_changes_wf2 _ _ C) as [W _].
  assert (get String.eqb signer d = None) as G by (apply get_pop_same, W).
  assert (~ leg_owner d signer) as N.
  { intros (pm & Hin & _). exact (get_none_not_In _ _ G pm Hin). }
  repeat split; trivial.
  - intros ->. apply N. apply (pairs_leg_owners d _ _ H).
  - intros ->. apply N. apply (pairs_leg_owners d _ _ H).
  - intros ->. apply N. apply (links_leg_owners d _ _ _ H H0).
  - intros ->. apply N. apply (links_leg_owners d _ _ _ H H0).
Qed.

Lemma signer_excluded_witness :
  let d := pop String.eqb "S"
             [("S", [("X", S754_finite false 5629499534213120 (-50))]);
              ("E1", [("X", S754_finite false 7036874417766400 (-46));
                      ("Y", S754_finite true 7036874417766400 (-47))]);
              ("E2", [("X", S754_finite true 7388718138654720 (-46));
                      ("Y", S754_finite false 7036874417766400 (-47))])] in
  get String.eqb "S" d = None /\
  ~ leg_owner d "S" /\
  (forall a b, In (a, b) (pairs (token_change_owners d)) ->
     a <> "S" /\ b <> "S") /\
  (forall lks first last,
     links (pairs (token_change_owners d)) = Some lks ->
     In (first, last) lks -> first <> "S" /\ last <> "S").
Proof.
  apply (signer_excluded round_trip "S").
  vm_compute. reflexivity.
Defined.

(** ** C8: the return value of [construct_balance_changes] *)

(** C8.  An owner whose only balance is the same before and after the
    transaction is returned, with an empty mapping: the filter [if v] of
    the outer comprehension looks at the accumulated entries, zeros
    included, not at the entries that are left. *)
Theorem unchanged_owner_is_kept :
  construct_balance_changes unchanged_owner = Ok [("P", [])].
Proof. vm_compute. reflexivity. Qed.

(** What [construct_balance_changes] does return: every owner of an
    entry is a key, and under it a mint is mapped to its net change over
    ten to the last decimals seen for that mint, unless the net change is
    zero. *)
Lemma construct_balance_changes_returns (transaction : Transaction)
  (d : BalanceChanges) (o : string) :
  construct_balance_changes transaction = Ok d ->
  let entries := postTokenBalances transaction ++ preTokenBalances transaction in
  (get String.eqb o d <> None <-> exists b, In b entries /\ owner b = o) /\
  forall v m,
    get String.eqb o d = Some v ->
    if (net_change transaction o m =? 0)%Z then get String.eqb m v = None
    else exists dcm q,
           last_decimals m entries None = Some dcm /\
           PyFloat.truediv (net_change transaction o m) (10 ^ Z.of_N dcm) = Ok q /\
           get String.eqb m v = Some q.
Proof.
  unfold construct_balance_changes.
  destruct (accumulate_all 1 _ _) as [st|] eqn:A; cbn; [|discriminate].
  destruct (accumulate_all (-1) st _) as [[changes decs]|] eqn:B; cbn;
    [|discriminate].
  intros H.
  assert (wf2 changes) as [W I].
  { change changes with (fst (changes, decs)).
    eapply accumulate_all_wf2; [|exact B].
    eapply accumulate_all_wf2; [|exact A]. exact wf2_nil. }
  assert (forall k v, In (k, v) changes -> v <> []) as Ne.
  { change changes with (fst (changes, decs)).
    apply (accumulate_all_nonempty _ _ _ _ B).
    apply (accumulate_all_nonempty _ _ _ _ A). intros k v []. }
  pose proof (scale_all_get decs changes d o W Ne H) as S.
  assert (get String.eqb o changes <> None <->
          exists b, In b (postTokenBalances transaction
                          ++ preTokenBalances transaction) /\ owner b = o) as O.
  { change changes with (fst (changes, decs)).
    rewrite (accumulate_all_owners _ _ _ _ o B),
            (accumulate_all_owners _ _ _ _ o A). cbn. split.
    - intros [[C | (b & Hb & E)] | (b & Hb & E)]; [congruence | |];
        exists b; rewrite in_app_iff; auto.
    - intros (b & Hb & E). apply in_app_iff in Hb. destruct Hb; eauto. }
  assert (forall m, change_of changes o m = net_change transaction o m) as C.
  { intros m. change changes with (fst (changes, decs)).
    rewrite (accumulate_all_change _ _ _ _ o m B),
            (accumulate_all_change _ _ _ _ o m A).
    unfold net_change.
    change (change_of (fst ([], [])) o m) with 0%Z. lia. }
  assert (forall m, get String.eqb m decs
                    = last_decimals m (postTokenBalances transaction
                                       ++ preTokenBalances transaction) None) as D.
  { intros m. change decs with (snd (changes, decs)).
    rewrite (accumulate_all_decimals _ _ _ _ m B),
            (accumulate_all_decimals _ _ _ _ m A).
    unfold last_decimals. rewrite fold_left_app. reflexivity. }
  destruct (get String.eqb o changes) as [w|] eqn:G.
  - destruct S as (v' & S & Gd). split.
    + rewrite Gd, <- O. split; discriminate.
    + intros v m. rewrite Gd. intros [= <-].
      pose proof (scale_get decs w v' m (I o w (get_In_string _ _ _ G)) S) as R.
      specialize (C m). unfold change_of in C. rewrite G in C.
      fold (entry_of w m) in C. rewrite C, D in R. exact R.
  - split.
    + rewrite S, <- O. tauto.
    + intros v m. rewrite S. discriminate.
Qed.

(** ** C10: determinism *)

(** C10.  What a transaction appends to [records] is the same from any two
    states of [main] (records so far, loop variables left by earlier
    transactions), an exception is the same exception, and processing the
    same transaction twice in a row appends the same records twice. *)
Theorem pipeline_deterministic (transaction : Transaction) (st1 st2 : MainState) :
  match process st1 transaction, process st2 transaction with
  | Ok a, Ok b =>
      exists new,
        records a = records st1 ++ new /\ records b = records st2 ++ new /\
        exists c, main_loop st1 [transaction; transaction] = Ok c /\
                  records c = records st1 ++ new ++ new
  | Raise e1, Raise e2 => e1 = e2
  | _, _ => False
  end.
Proof.
  unfold main_loop, process.
  destruct (hd_error (signatures transaction)) as [signature|]; cbn; trivial.
  destruct (hd_error (accountKeys transaction)) as [signer|]; cbn; trivial.
  destruct (construct_balance_changes transaction) as [changes|] eqn:C; cbn;
    trivial.
  pose proof (pop_wf2 signer changes (construct_balance_changes_wf2 _ _ C)) as W.
  destruct (detect_appends signature signer _ st1 W) as (a & lks & L1 & D1 & R1).
  destruct (detect_appends signature signer _ st2 W) as (b & lks2 & L2 & D2 & R2).
  destruct (detect_appends signature signer _ a W) as (c & lks3 & L3 & D3 & R3).
  rewrite L1 in L2, L3. injection L2 as <-. injection L3 as <-.
  rewrite D1, D2. cbn. rewrite D3.
  eexists. split; [exact R1|]. split; [exact R2|].
  exists c. split; [reflexivity|]. rewrite R3, R1, <- app_assoc. reflexivity.
Qed.

(** ** C6: which owners are swap legs *)

Lemma same_sign_not_leg (m1 m2 : string) (v1 v2 : PyFloat.float) :
  (gt_zero v1 = true /\ gt_zero v2 = true) \/
  (lt_zero v1 = true /\ lt_zero v2 = true) ->
  is_leg [(m1, v1); (m2, v2)] = false.
Proof.
  intros S. destruct (is_leg [(m1, v1); (m2, v2)]) eqn:L; trivial.
  destruct (is_leg_inv _ L) as (a & x & b & y & [= <- <- <- <-] & O).
  destruct S as [[P1 P2] | [N1 N2]], O as [[A B] | [A B]].
  - rewrite (gt_zero_not_lt _ P1) in A. discriminate.
  - rewrite (gt_zero_not_lt _ P2) in B. discriminate.
  - rewrite (lt_zero_not_gt _ N2) in B. discriminate.
  - rewrite (lt_zero_not_gt _ N1) in A. discriminate.
Qed.

Lemma record_owners_swap_legs (l : BalanceChanges) (tco : TokenChangeOwners) :
  fold_left record_owner l tco = fold_left record_leg (swap_legs l) tco.
Proof.
  revert tco. induction l as [|[o pm] l IH]; intros tco; [reflexivity|].
  cbn [fold_left record_owner swap_legs filter snd].
  destruct (is_leg pm); cbn [fold_left]; apply IH.
Qed.



(** ** C5: slots and pairs *)

Lemma key_eqb_refl (m : string) (v : PyFloat.float) :
  PyFloat.sign v <> None -> key_eqb (m, v) (m, v) = true.
Proof.
  intros H. unfold key_eqb. cbn.
  rewrite String.eqb_refl, PyFloatFacts.eqb_refl; trivial.
Qed.

Lemma lt_zero_abs_sign (v : PyFloat.float) :
  lt_zero v = true -> PyFloat.sign (PyFloat.abs v) <> None.
Proof.
  intros H.
  destruct (PyFloatFacts.ltb_zero_inv v H) as [-> | (m & e & ->)]; discriminate.
Qed.

Lemma gt_zero_sign (v : PyFloat.float) :
  gt_zero v = true -> PyFloat.sign v <> None.
Proof.
  intros H.
  destruct (PyFloatFacts.zero_ltb_inv v H) as [-> | (m & e & ->)]; discriminate.
Qed.

(** What a giving entry and a receiving entry write. *)
Lemma record_given (o m : string) (v : PyFloat.float) (tco : TokenChangeOwners) :
  lt_zero v = true ->
  exists s, get key_eqb (m, PyFloat.abs v) (record_change o tco (m, v))
            = Some (Some o, s).
Proof.
  intros H. unfold record_change.
  destruct (get_update_same key_eqb (m, PyFloat.abs v) (set_slot v o) (None, None)
              tco (key_eqb_refl _ _ (lt_zero_abs_sign v H))) as (s & ->).
  unfold set_slot. unfold lt_zero in H. rewrite H. eauto.
Qed.

Lemma record_received (o m : string) (v : PyFloat.float) (tco : TokenChangeOwners) :
  gt_zero v = true ->
  exists s, get key_eqb (m, v) (record_change o tco (m, v)) = Some (s, Some o).
Proof.
  intros H. unfold record_change.
  rewrite (PyFloatFacts.abs_positive v H).
  destruct (get_update_same key_eqb (m, v) (set_slot v o) (None, None)
              tco (key_eqb_refl _ _ (gt_zero_sign v H))) as (s & ->).
  pose proof (gt_zero_not_lt v H) as N. unfold lt_zero in N.
  unfold set_slot. rewrite N. eauto.
Qed.

(** A later write of the same owner keeps it in the slot. *)
Lemma record_change_keeps_given (o : string) k entry tco s :
  get key_eqb k tco = Some (Some o, s) ->
  exists s', get key_eqb k (record_change o tco entry) = Some (Some o, s').
Proof.
  intros G. destruct entry as [m v]. unfold record_change.
  destruct (get_update_or key_eqb k (m, PyFloat.abs v) (set_slot v o) (None, None)
              tco _ G) as [-> | ->]; [eauto|].
  unfold set_slot. destruct (PyFloat.ltb v PyFloat.zero); cbn; eauto.
Qed.

Lemma record_change_keeps_received (o : string) k entry tco s :
  get key_eqb k tco = Some (s, Some o) ->
  exists s', get key_eqb k (record_change o tco entry) = Some (s', Some o).
Proof.
  intros G. destruct entry as [m v]. unfold record_change.
  destruct (get_update_or key_eqb k (m, PyFloat.abs v) (set_slot v o) (None, None)
              tco _ G) as [-> | ->]; [eauto|].
  unfold set_slot. destruct (PyFloat.ltb v PyFloat.zero); cbn; eauto.
Qed.

(** *** The table against the matcher of the specification *)

Lemma float_eqb_cong (a b c : PyFloat.float) :
  PyFloat.eqb a b = true -> PyFloat.eqb a c = PyFloat.eqb b c.
Proof.
  unfold PyFloat.eqb, SFeqb.
  destruct a as [[] | [] | | [] ma ea], b as [[] | [] | | [] mb eb];
    cbn; try discriminate; try (intros _; destruct c; reflexivity);
    destruct (Z.compare_spec ea eb) as [-> | L | L]; try discriminate;
    destruct (Pos.compare_cont Eq ma mb) eqn:C; try discriminate;
    apply Pos.compare_eq in C; subst; reflexivity.
Qed.

Lemma key_eqb_cong (a b c : TransferKey) :
  key_eqb a b = true -> key_eqb a c = key_eqb b c.
Proof.
  unfold key_eqb. rewrite andb_true_iff, String.eqb_eq. intros [E F].
  rewrite E, (float_eqb_cong _ _ (snd c) F). reflexivity.
Qed.

(** A lookup after [token_change_owners[k'][i] = owner]. *)
Lemma get_update_key (k k' : TransferKey) (f : Slots -> Slots)
  (tco : TokenChangeOwners) :
  get key_eqb k (update key_eqb k' f (None, None) tco)
  = if key_eqb k' k then Some (f (slots_or_empty (get key_eqb k tco)))
    else get key_eqb k tco.
Proof.
  induction tco as [|[k0 s0] tco IH]; cbn [update get].
  - destruct (key_eqb k' k); reflexivity.
  - destruct (key_eqb k0 k') eqn:E; cbn [get].
    + rewrite <- (key_eqb_cong k0 k' k E).
      destruct (key_eqb k0 k); reflexivity.
    + rewrite IH. destruct (key_eqb k0 k) eqn:E0; [|reflexivity].
      destruct (key_eqb k' k) eqn:E1; [|reflexivity].
      rewrite (key_eqb_cong k0 k k' E0), key_eqb_sym, E1 in E. discriminate.
Qed.

Lemma get_record_change (k : TransferKey) (o m : string) (v : PyFloat.float)
  (tco : TokenChangeOwners) :
  get key_eqb k (record_change o tco (m, v))
  = if key_eqb (m, PyFloat.abs v) k
    then Some (set_slot v o (slots_or_empty (get key_eqb k tco)))
    else get key_eqb k tco.
Proof. apply get_update_key. Qed.

Lemma swap_leg_of_none (o : string) (pm : dict string PyFloat.float) :
  swap_leg_of (o, pm) = None -> is_leg pm = false.
Proof.
  cbn. destruct (is_leg pm) eqn:L; [|reflexivity].
  destruct (is_leg_inv pm L) as (m1 & v1 & m2 & v2 & -> & _).
  destruct (PyFloat.ltb v1 PyFloat.zero); discriminate.
Qed.

(** One owner of the loop against one leg of the specification. *)
Lemma get_record_owner (k : TransferKey) (o : string)
  (pm : dict string PyFloat.float) (l : SwapLeg) (tco : TokenChangeOwners) :
  swap_leg_of (o, pm) = Some l ->
  get key_eqb k (record_owner tco (o, pm))
  = if is_key (get key_eqb k tco)
       || (key_eqb (sl_given l) k || key_eqb (sl_received l) k)
    then Some (matcher_write k (slots_or_empty (get key_eqb k tco)) l)
    else None.
Proof.
  cbn [swap_leg_of record_owner]. destruct (is_leg pm) eqn:L; [|discriminate].
  destruct (is_leg_inv pm L) as (m1 & v1 & m2 & v2 & -> & Signs).
  cbn [fold_left]. rewrite !get_record_change. unfold matcher_write, set_slot.
  unfold lt_zero, gt_zero in Signs.
  destruct Signs as [[A B] | [A B]].
  - rewrite A, (PyFloatFacts.positive_not_negative v2 B),
      (PyFloatFacts.abs_positive v2 B).
    intros [= <-]. cbn [sl_owner sl_given sl_received].
    destruct (key_eqb (m1, PyFloat.abs v1) k), (key_eqb (m2, v2) k),
      (get key_eqb k tco) as [[x y]|]; reflexivity.
  - rewrite B, (PyFloatFacts.positive_not_negative v1 A),
      (PyFloatFacts.abs_positive v1 A).
    intros [= <-]. cbn [sl_owner sl_given sl_received].
    destruct (key_eqb (m1, v1) k), (key_eqb (m2, PyFloat.abs v2) k),
      (get key_eqb k tco) as [[x y]|]; reflexivity.
Qed.

Lemma matcher_write_other (k : TransferKey) (s : Slots) (l : SwapLeg) :
  key_eqb (sl_given l) k || key_eqb (sl_received l) k = false ->
  matcher_write k s l = s.
Proof.
  unfold matcher_write. rewrite orb_false_iff. intros [-> ->]. reflexivity.
Qed.

Lemma get_record_owners (k : TransferKey) (l : BalanceChanges)
  (tco : TokenChangeOwners) :
  get key_eqb k (fold_left record_owner l tco)
  = if is_key (get key_eqb k tco) || matcher_has_key (SwapLegs l) k
    then Some (fold_left (matcher_write k) (SwapLegs l)
                 (slots_or_empty (get key_eqb k tco)))
    else None.
Proof.
  revert tco. induction l as [|[o pm] l IH]; intros tco.
  - cbn. destruct (get key_eqb k tco); reflexivity.
  - cbn [fold_left]. rewrite IH. unfold SwapLegs. cbn [flat_map].
    fold (SwapLegs l).
    destruct (swap_leg_of (o, pm)) as [leg|] eqn:E.
    + rewrite (get_record_owner k o pm leg tco E).
      change (matcher_has_key ([leg] ++ SwapLegs l) k)
        with (key_eqb (sl_given leg) k || key_eqb (sl_received leg) k
              || matcher_has_key (SwapLegs l) k).
      change (fold_left (matcher_write k) ([leg] ++ SwapLegs l)
                (slots_or_empty (get key_eqb k tco)))
        with (fold_left (matcher_write k) (SwapLegs l)
                (matcher_write k (slots_or_empty (get key_eqb k tco)) leg)).
      destruct (is_key (get key_eqb k tco)
                || (key_eqb (sl_given leg) k || key_eqb (sl_received leg) k))
        eqn:H.
      * rewrite orb_assoc, H. reflexivity.
      * apply orb_false_iff in H. destruct H as [H1 H2].
        rewrite H1, H2, (matcher_write_other k _ leg H2).
        destruct (get key_eqb k tco); [discriminate|]. reflexivity.
    + apply swap_leg_of_none in E. cbn [record_owner]. rewrite E. reflexivity.
Qed.

(** The keys of the table are keys a lookup finds. *)
Lemma token_change_owners_keys (d : BalanceChanges) k s :
  In (k, s) (token_change_owners d) -> key_eqb k k = true.
Proof.
  unfold token_change_owners.
  assert (forall l tco,
            (forall k s, In (k, s) tco -> key_eqb k k = true) ->
            forall k s, In (k, s) (fold_left record_owner l tco) ->
                        key_eqb k k = true) as G.
  { induction l as [|[o pm] l IH]; cbn [fold_left]; intros tco Inv; [exact Inv|].
    apply IH. cbn [record_owner]. destruct (is_leg pm) eqn:L; [|exact Inv].
    destruct (is_leg_inv pm L) as (m1 & v1 & m2 & v2 & -> & Signs).
    assert (forall m v t,
              lt_zero v = true \/ gt_zero v = true ->
              (forall k s, In (k, s) t -> key_eqb k k = true) ->
              forall k s, In (k, s) (record_change o t (m, v)) ->
                          key_eqb k k = true) as Step.
    { intros m v t Sg It k0 s0 H. unfold record_change in H.
      apply update_In_key in H.
      destruct H as [H | [(old & H & _) | [-> _]]]; eauto.
      apply key_eqb_refl. destruct Sg as [N | P].
      - apply lt_zero_abs_sign, N.
      - rewrite (PyFloatFacts.abs_positive v P). apply gt_zero_sign, P. }
    cbn [fold_left]. apply (Step m2 v2); [tauto|].
    apply (Step m1 v1); [tauto | exact Inv]. }
  apply G. intros k0 s0 [].
Qed.

Lemma get_none_key (k : TransferKey) (tco : TokenChangeOwners) k' s :
  get key_eqb k tco = None -> In (k', s) tco -> key_eqb k' k = false.
Proof.
  induction tco as [|[k0 s0] tco IH]; cbn; [tauto|].
  destruct (key_eqb k0 k) eqn:E; [discriminate|].
  intros G [[= <- <-] | H]; auto.
Qed.

Lemma In_get_key (k : TransferKey) (s : Slots) (tco : TokenChangeOwners) :
  wf key_eqb tco -> key_eqb k k = true -> In (k, s) tco ->
  get key_eqb k tco = Some s.
Proof.
  intros W R. induction tco as [|[k0 s0] tco IH]; cbn; [tauto|].
  destruct W as [G W]. intros [[= -> ->] | H].
  - rewrite R. reflexivity.
  - rewrite key_eqb_sym, (get_none_key k0 tco k s G H). auto.
Qed.

(** C5.  [token_change_owners] is the table of the specification: a key is
    in it when some swap leg of the transaction gave or received under it,
    and its slot 0 and slot 1 then hold the owner of the last leg that gave
    under the key and of the last that received under it; the table has
    one entry per key; [pairs] is, in key order, one pair for every key
    whose two slots hold non-empty owners, and nothing else, so the pairs
    are the (slot 0, slot 1) of the complete keys of the specification;
    and a swap leg leaves its owner in slot 0 of the key of what it gave
    and in slot 1 of the key of what it received. *)
Theorem leg_pair_matching (d : BalanceChanges) :
  (forall k,
     get key_eqb k (token_change_owners d)
     = if matcher_has_key (SwapLegs d) k
       then Some (matcher_slots (SwapLegs d) k) else None) /\
  (forall a b,
     In (a, b) (pairs (token_change_owners d)) <->
     exists k, matcher_has_key (SwapLegs d) k = true /\
               matcher_slots (SwapLegs d) k = (Some a, Some b) /\
               a <> "" /\ b <> "") /\
  wf key_eqb (token_change_owners d) /\
  map (fun p => (Some (fst p), Some (snd p))) (pairs (token_change_owners d))
  = filter complete (values (token_change_owners d)) /\
  (forall tco o pm,
     is_leg pm = true ->
     exists tg vg tr vr,
       In (tg, vg) pm /\ In (tr, vr) pm /\
       lt_zero vg = true /\ gt_zero vr = true /\
       (exists s, get key_eqb (tg, PyFloat.abs vg) (record_owner tco (o, pm))
                  = Some (Some o, s)) /\
       (exists s, get key_eqb (tr, vr) (record_owner tco (o, pm))
                  = Some (s, Some o))).
Proof.
  assert (forall k,
            get key_eqb k (token_change_owners d)
            = if matcher_has_key (SwapLegs d) k
              then Some (matcher_slots (SwapLegs d) k) else None) as Table.
  { intros k. unfold token_change_owners. rewrite get_record_owners.
    reflexivity. }
  split; [exact Table|]. split.
  { intros a b. rewrite pairs_In. split.
    - intros (k & H & Na & Nb). exists k.
      pose proof (In_get_key k _ _ (wf_token_change_owners d)
                    (token_change_owners_keys d k _ H) H) as G.
      rewrite Table in G.
      destruct (matcher_has_key (SwapLegs d) k); [|discriminate].
      injection G as G. auto.
    - intros (k & Hk & S & Na & Nb).
      pose proof (Table k) as G. rewrite Hk, S in G.
      destruct (get_In key_eqb k _ _ G) as (k' & H & _). eauto. }
  split; [apply wf_token_change_owners|]. split; [apply pairs_complete|].
  intros tco o pm L. cbn [record_owner]. rewrite L.
  destruct (is_leg_inv pm L) as (m1 & v1 & m2 & v2 & -> & [[A B] | [A B]]);
    cbn [fold_left].
  - exists m1, v1, m2, v2. repeat split; cbn; auto.
    + destruct (record_given o m1 v1 tco A) as (s & G).
      apply (record_change_keeps_given o _ (m2, v2) _ s G).
    + apply record_received, B.
  - exists m2, v2, m1, v1. repeat split; cbn; auto.
    + apply record_given, B.
    + destruct (record_received o m1 v1 tco A) as (s & G).
      apply (record_change_keeps_received o _ (m2, v2) _ s G).
Qed.

(** The pair of [round_trip]: E1 gave 50 of Y, which E2 received. *)
Lemma leg_pair_matching_witness :
  get key_eqb ("Y", S754_finite false 7036874417766400 (-47))
    (token_change_owners (pop String.eqb "S" round_trip_changes))
  = Some (Some "E1", Some "E2") /\
  In ("E1", "E2") (pairs (token_change_owners (pop String.eqb "S" round_trip_changes))) /\
  exists tg vg tr vr,
    In (tg, vg) [("X", S754_finite false 7036874417766400 (-46));
                 ("Y", S754_finite true 7036874417766400 (-47))] /\
    In (tr, vr) [("X", S754_finite false 7036874417766400 (-46));
                 ("Y", S754_finite true 7036874417766400 (-47))] /\
    lt_zero vg = true /\ gt_zero vr = true /\
    (exists s,
       get key_eqb (tg, PyFloat.abs vg)
         (record_owner []
            ("E1", [("X", S754_finite false 7036874417766400 (-46));
                    ("Y", S754_finite true 7036874417766400 (-47))]))
       = Some (Some "E1", s)) /\
    (exists s,
       get key_eqb (tr, vr)
         (record_owner []
            ("E1", [("X", S754_finite false 7036874417766400 (-46));
                    ("Y", S754_finite true 7036874417766400 (-47))]))
       = Some (s, Some "E1")).
Proof.
  destruct (leg_pair_matching (pop String.eqb "S" round_trip_changes))
    as (Table & Edges & _ & _ & Legs).
  split; [|split].
  - rewrite Table. reflexivity.
  - apply Edges. exists ("Y", S754_finite false 7036874417766400 (-47)).
    repeat split; discriminate.
  - apply Legs. reflexivity.
Defined.

(** ** C1: two owners that swap with each other *)

Section TwoOwnerSwap.

Variables P Q A B : string.
Hypothesis PQ : P <> Q.
Hypothesis Pne : P <> "".
Hypothesis Qne : Q <> "".
Hypothesis AB : A <> B.

Lemma gave_received_is_leg (m1 m2 : string) :
  is_leg [(m1, PyFloat.neg thirty); (m2, thirty)] = true.
Proof. vm_compute. reflexivity. Qed.

Lemma received_gave_is_leg (m1 m2 : string) :
  is_leg [(m2, thirty); (m1, PyFloat.neg thirty)] = true.
Proof. vm_compute. reflexivity. Qed.

Lemma record_gave_thirty (o m : string) (tco : TokenChangeOwners) :
  record_change o tco (m, PyFloat.neg thirty)
  = update key_eqb (m, thirty) (fun v => (Some o, snd v)) (None, None) tco.
Proof. reflexivity. Qed.

Lemma record_received_thirty (o m : string) (tco : TokenChangeOwners) :
  record_change o tco (m, thirty)
  = update key_eqb (m, thirty) (fun v => (fst v, Some o)) (None, None) tco.
Proof. reflexivity. Qed.

Lemma key_eqb_thirty (m1 m2 : string) :
  key_eqb (m1, thirty) (m2, thirty) = String.eqb m1 m2.
Proof. unfold key_eqb. cbn. apply andb_true_r. Qed.

Lemma neqb (a b : string) : a <> b -> String.eqb a b = false.
Proof. apply String.eqb_neq. Qed.

Lemma neqb_sym (a b : string) : a <> b -> String.eqb b a = false.
Proof. intros H. apply String.eqb_neq. congruence. Qed.

Ltac names :=
  rewrite ?String.eqb_refl,
    ?(neqb _ _ AB), ?(neqb_sym _ _ AB), ?(neqb _ _ PQ), ?(neqb_sym _ _ PQ),
    ?(neqb _ _ Pne), ?(neqb _ _ Qne).

Ltac run_matcher :=
  unfold token_change_owners; cbn [fold_left record_owner];
  rewrite ?gave_received_is_leg, ?received_gave_is_leg;
  cbn [fold_left];
  rewrite ?record_gave_thirty, ?record_received_thirty;
  repeat (progress (cbn [update fst snd]; rewrite ?key_eqb_thirty; names)).

(** The two slot tables the eight orders of the entries lead to. *)
Lemma swap_token_change_owners (eP eQ : dict string PyFloat.float)
  (d : BalanceChanges) :
  Permutation [(A, PyFloat.neg thirty); (B, thirty)] eP ->
  Permutation [(B, PyFloat.neg thirty); (A, thirty)] eQ ->
  Permutation [(P, eP); (Q, eQ)] d ->
  token_change_owners d
  = [((A, thirty), (Some P, Some Q)); ((B, thirty), (Some Q, Some P))] \/
  token_change_owners d
  = [((B, thirty), (Some Q, Some P)); ((A, thirty), (Some P, Some Q))].
Proof.
  intros HP HQ HD.
  apply Permutation_length_2_inv in HP, HQ, HD.
  destruct HP as [-> | ->], HQ as [-> | ->], HD as [-> | ->];
    run_matcher; auto.
Qed.

Lemma swap_wf2 (eP eQ : dict string PyFloat.float) (d : BalanceChanges) :
  Permutation [(A, PyFloat.neg thirty); (B, thirty)] eP ->
  Permutation [(B, PyFloat.neg thirty); (A, thirty)] eQ ->
  Permutation [(P, eP); (Q, eQ)] d ->
  wf2 d.
Proof.
  intros HP HQ HD.
  apply Permutation_length_2_inv in HP, HQ, HD.
  destruct HP as [-> | ->], HQ as [-> | ->], HD as [-> | ->];
    (split;
     [ cbn; names; auto
     | intros k v [[= <- <-] | [[= <- <-] | []]]; cbn; names; auto ]).
Qed.

Lemma swap_links :
  links [(P, Q); (Q, P)] = Some [(Q, Q)] /\
  links [(Q, P); (P, Q)] = Some [(P, P)].
Proof.
  unfold links, ends, link_first, link_last.
  split; cbn; unfold extend_once; cbn; unfold link_first, link_last; cbn;
    names; cbn; unfold pair_eqb; cbn; names; cbn; reflexivity.
Qed.

(** C1, amended.  Whatever the order of the owners and of their entries,
    the two owners of the scenario give the pair (P, Q) under the key of
    tokenA/30 and the pair (Q, P) under the key of tokenB/30, the merge
    joins both pairs in one link, that link starts and ends at the same
    owner, and no record is added. *)
Theorem closed_swap_emits_nothing (signature S : string)
  (eP eQ : dict string PyFloat.float) (d : BalanceChanges) (st : MainState) :
  Permutation [(A, PyFloat.neg thirty); (B, thirty)] eP ->
  Permutation [(B, PyFloat.neg thirty); (A, thirty)] eQ ->
  Permutation [(P, eP); (Q, eQ)] d ->
  get key_eqb (A, thirty) (token_change_owners d) = Some (Some P, Some Q) /\
  get key_eqb (B, thirty) (token_change_owners d) = Some (Some Q, Some P) /\
  Permutation [(P, Q); (Q, P)] (pairs (token_change_owners d)) /\
  (exists o, links (pairs (token_change_owners d)) = Some [(o, o)]) /\
  exists st', detect signature S d st = Ok st' /\ records st' = records st.
Proof.
  intros HP HQ HD.
  pose proof (swap_wf2 eP eQ d HP HQ HD) as W.
  assert (exists o, links (pairs (token_change_owners d)) = Some [(o, o)]) as L.
  { destruct (swap_token_change_owners eP eQ d HP HQ HD) as [-> | ->];
      cbn [pairs truthy]; names; cbn [negb andb].
    - exists Q. apply swap_links.
    - exists P. apply swap_links. }
  assert (get key_eqb (A, thirty) (token_change_owners d) = Some (Some P, Some Q) /\
          get key_eqb (B, thirty) (token_change_owners d) = Some (Some Q, Some P) /\
          Permutation [(P, Q); (Q, P)] (pairs (token_change_owners d))) as G.
  { destruct (swap_token_change_owners eP eQ d HP HQ HD) as [-> | ->];
      cbn [get pairs truthy]; rewrite ?key_eqb_thirty; names; cbn [negb andb];
      repeat split; trivial. apply perm_swap. }
  destruct G as (G1 & G2 & G3). repeat split; trivial.
  destruct L as (o & L).
  destruct (detect_appends signature S d st W) as (st' & lks & L' & D & R).
  rewrite L in L'. injection L' as <-.
  exists st'. split; [exact D|]. rewrite R. cbn [flat_map]. unfold added.
  destruct (links_leg_owners d _ o o L (or_introl eq_refl)) as [Lo _].
  destruct (classify_closed signature S d initial o W Lo) as (st0 & C0 & R0).
  rewrite C0, R0. cbn. rewrite app_nil_r. reflexivity.
Qed.

End TwoOwnerSwap.

Lemma closed_swap_emits_nothing_witness :
  let d := [("P", [("tokenA", PyFloat.neg thirty); ("tokenB", thirty)]);
            ("Q", [("tokenA", thirty); ("tokenB", PyFloat.neg thirty)])] in
  get key_eqb ("tokenA", thirty) (token_change_owners d)
  = Some (Some "P", Some "Q") /\
  get key_eqb ("tokenB", thirty) (token_change_owners d)
  = Some (Some "Q", Some "P") /\
  Permutation [("P", "Q"); ("Q", "P")] (pairs (token_change_owners d)) /\
  (exists o, links (pairs (token_change_owners d)) = Some [(o, o)]) /\
  exists st', detect "sig" "S" d initial = Ok st' /\ records st' = records initial.
Proof.
  apply (closed_swap_emits_nothing "P" "Q" "tokenA" "tokenB")
    with (eP := [("tokenA", PyFloat.neg thirty); ("tokenB", thirty)])
         (eQ := [("tokenA", thirty); ("tokenB", PyFloat.neg thirty)]);
    try discriminate.
  - apply Permutation_refl.
  - apply perm_swap.
  - apply Permutation_refl.
Defined.

(** C1 as stated fails: the transaction of the scenario adds no record. *)
Lemma two_owner_swap_no_record :
  construct_balance_changes two_owner_swap
  = Ok [("P", [("tokenA", PyFloat.neg thirty); ("tokenB", thirty)]);
        ("Q", [("tokenA", thirty); ("tokenB", PyFloat.neg thirty)])] /\
  ~ exists st profit,
      process initial two_owner_swap = Ok st /\
      records st = [{| arb_signature := "sig"; arb_beneficiary := "S";
                       arb_mint := "tokenB"; arb_amount := profit |}].
Proof.
  split; [vm_compute; reflexivity|].
  intros (st & profit & H & R).
  vm_compute in H. injection H as <-. discriminate R.
Qed.

(* ================================================================= *)
(** * Further properties of the code *)

(** ** What [construct_balance_changes] can raise *)

Section ExtractorErrors.

Lemma amount_int_raises (b : TokenBalance) (e : exn) :
  amount_int b = Raise e -> e = ValueError.
Proof.
  unfold amount_int, PyInt.int.
  destruct (amount b) as [s|]; [destruct (String.eqb s "")|];
    (destruct (PyInt.parse _); cbn; [discriminate | congruence]).
Qed.

(** The accumulation loops stop at the first amount that is no integer
    literal, and at nothing else. *)
Lemma accumulate_all_result (sign : Z) (bs : list TokenBalance)
  (st : Changes * Decimals) :
  match accumulate_all sign st bs with
  | Ok _ => Forall (fun b => exists n, amount_int b = Ok n) bs
  | Raise e => e = ValueError /\
               Exists (fun b => amount_int b = Raise ValueError) bs
  end.
Proof.
  revert st. induction bs as [|b bs IH]; cbn; intros st; [constructor|].
  destruct st as [changes decs]. unfold accumulate.
  destruct (amount_int b) as [n|e] eqn:A; cbn.
  - specialize (IH (update String.eqb (owner b)
                      (update String.eqb (mint b) (fun y => y + sign * n)%Z 0%Z)
                      [] changes,
                    set String.eqb (mint b) (decimals b) decs)).
    destruct (accumulate_all sign _ bs) as [st'|e].
    + constructor; eauto.
    + destruct IH as [-> E]. split; [reflexivity | right; exact E].
  - pose proof (amount_int_raises b e A) as ->.
    split; [reflexivity | left; exact A].
Qed.

Lemma get_set_known (m m' : string) (n : N) (decs : Decimals) :
  get String.eqb m decs <> None ->
  get String.eqb m (set String.eqb m' n decs) <> None.
Proof.
  intros H. unfold set. destruct (String.eqb_spec m m') as [-> | N].
  - rewrite get_update_eq. discriminate.
  - rewrite get_update_neq by exact N. exact H.
Qed.

Lemma accumulate_mints_known (sign : Z) (st st' : Changes * Decimals)
  (b : TokenBalance) :
  mints_known st -> accumulate sign st b = Ok st' -> mints_known st'.
Proof.
  intros K H. destruct (accumulate_inv _ _ _ _ H) as (_ & C & D).
  intros o v m y Hv Hm. rewrite D. rewrite C in Hv.
  apply update_In in Hv.
  destruct Hv as [Hv | [(v0 & Hv & ->) | [_ ->]]].
  - apply get_set_known. exact (K o v m y Hv Hm).
  - apply update_In in Hm.
    destruct Hm as [Hm | [(y0 & Hm & _) | [-> _]]].
    + apply get_set_known. exact (K o v0 m y Hv Hm).
    + apply get_set_known. exact (K o v0 m y0 Hv Hm).
    + unfold set. rewrite get_update_eq. discriminate.
  - destruct Hm as [[= <- _] | []].
    unfold set. rewrite get_update_eq. discriminate.
Qed.

Lemma accumulate_all_mints_known (sign : Z) (bs : list TokenBalance)
  (st st' : Changes * Decimals) :
  mints_known st -> accumulate_all sign st bs = Ok st' -> mints_known st'.
Proof.
  revert st. induction bs as [|b bs IH]; cbn; intros st K.
  - intros [= <-]. exact K.
  - destruct (accumulate sign st b) as [st1|e] eqn:E; cbn; [|discriminate].
    apply IH. eapply accumulate_mints_known; eauto.
Qed.

Lemma scale_raises (decs : Decimals) (v : dict string Z) (e : exn) :
  (forall m y, In (m, y) v -> get String.eqb m decs <> None) ->
  scale decs v = Raise e -> e = OverflowError.
Proof.
  induction v as [|[x y] v IH]; cbn; intros K; [discriminate|].
  assert (forall m y', In (m, y') v -> get String.eqb m decs <> None) as K'
    by (intros m y' H; apply (K m y'); right; exact H).
  destruct (y =? 0)%Z; [auto|].
  specialize (K x y (or_introl eq_refl)).
  destruct (get String.eqb x decs) as [d|]; [|congruence]. cbn.
  unfold PyFloat.truediv.
  destruct (SFdiv _ _ _ _) as [s | s | | s q ex]; cbn;
    try (destruct (scale decs v); cbn; [discriminate | auto]).
  congruence.
Qed.

Lemma scale_all_raises (decs : Decimals) (changes : Changes) (e : exn) :
  mints_known (changes, decs) ->
  scale_all decs changes = Raise e -> e = OverflowError.
Proof.
  induction changes as [|[k v] changes IH]; cbn; intros K; [discriminate|].
  assert (mints_known (changes, decs)) as K'
    by (intros o w m y H; apply (K o w m y); right; exact H).
  destruct v as [|entry v]; [auto|].
  destruct (scale decs (entry :: v)) as [v'|e'] eqn:S; cbn.
  - destruct (scale_all decs changes); cbn; [discriminate | auto].
  - intros [= <-]. apply (scale_raises decs _ _ (fun m y => K k _ m y (or_introl eq_refl)) S).
Qed.

(** What the function raises: [ValueError] for an amount that is no
    integer literal, [OverflowError] for a quotient too large for a float,
    and never a [KeyError] for the decimals of a mint. *)
Lemma construct_balance_changes_result (transaction : Transaction) :
  match construct_balance_changes transaction with
  | Ok _ | Raise OverflowError =>
      Forall (fun b => exists n, amount_int b = Ok n)
        (postTokenBalances transaction ++ preTokenBalances transaction)
  | Raise ValueError =>
      Exists (fun b => amount_int b = Raise ValueError)
        (postTokenBalances transaction ++ preTokenBalances transaction)
  | Raise _ => False
  end.
Proof.
  unfold construct_balance_changes.
  pose proof (accumulate_all_result 1 (postTokenBalances transaction) ([], [])) as A.
  destruct (accumulate_all 1 _ _) as [st|e] eqn:EA; cbn.
  - pose proof (accumulate_all_result (-1) (preTokenBalances transaction) st) as B.
    destruct (accumulate_all (-1) st _) as [[changes decs]|e] eqn:EB; cbn.
    + assert (mints_known (changes, decs)) as K.
      { eapply accumulate_all_mints_known; [|exact EB].
        eapply accumulate_all_mints_known; [|exact EA].
        intros o v m y []. }
      destruct (scale_all decs changes) as [d|e] eqn:S.
      * apply Forall_app. auto.
      * rewrite (scale_all_raises _ _ _ K S). apply Forall_app. auto.
    + destruct B as [-> B]. apply Exists_app. auto.
  - destruct A as [-> A]. apply Exists_app. auto.
Qed.

Lemma construct_balance_changes_raises (transaction : Transaction) (e : exn) :
  construct_balance_changes transaction = Raise e ->
  e = ValueError \/ e = OverflowError.
Proof.
  intros H. pose proof (construct_balance_changes_result transaction) as R.
  rewrite H in R. destruct e; auto; contradiction.
Qed.

End ExtractorErrors.

(** ** What one transaction does to the state of [main] *)

Section ProcessFacts.

(** The three ways through [process]. *)
Lemma process_spec (st : MainState) (transaction : Transaction) :
  match hd_error (signatures transaction),
        hd_error (accountKeys transaction),
        construct_balance_changes transaction with
  | Some signature, Some signer, Ok d =>
      exists st' lks,
        links (pairs (token_change_owners (pop String.eqb signer d))) = Some lks /\
        process st transaction = Ok st' /\
        records st' =
        records st ++ flat_map (added signature signer (pop String.eqb signer d)) lks
  | Some _, Some _, Raise e => process st transaction = Raise e
  | _, _, _ => process st transaction = Raise IndexError
  end.
Proof.
  unfold process.
  destruct (hd_error (signatures transaction)) as [signature|]; cbn; trivial.
  destruct (hd_error (accountKeys transaction)) as [signer|]; cbn; trivial.
  destruct (construct_balance_changes transaction) as [d|e] eqn:C; cbn; trivial.
  pose proof (pop_wf2 signer d (construct_balance_changes_wf2 _ _ C)) as W.
  destruct (detect_appends signature signer _ st W) as (st' & lks & L & D & R).
  exists st', lks. auto.
Qed.

Lemma process_appends (st st' : MainState) (transaction : Transaction) :
  process st transaction = Ok st' ->
  records st' = records st ++ emitted transaction.
Proof.
  intros H. unfold emitted.
  pose proof (process_spec st transaction) as S.
  pose proof (process_spec initial transaction) as S0.
  destruct (hd_error (signatures transaction)) as [signature|]; [|congruence].
  destruct (hd_error (accountKeys transaction)) as [signer|]; [|congruence].
  destruct (construct_balance_changes transaction) as [d|e]; [|congruence].
  destruct S as (a & lks & L & P & R), S0 as (b & lks0 & L0 & P0 & R0).
  rewrite L in L0. injection L0 as <-.
  rewrite P0, R0. rewrite P in H. injection H as <-. exact R.
Qed.

Lemma hd_error_nil {A : Type} (l : list A) : hd_error l = None -> l = [].
Proof. destruct l; [reflexivity | discriminate]. Qed.

Lemma main_loop_appends (transactions : list Transaction) (st st' : MainState) :
  main_loop st transactions = Ok st' ->
  records st' = records st ++ flat_map emitted transactions.
Proof.
  revert st. induction transactions as [|t ts IH]; cbn; intros st.
  - intros [= <-]. rewrite app_nil_r. reflexivity.
  - destruct (process st t) as [st1|e] eqn:P; cbn; [|discriminate].
    intros H. rewrite (IH _ H), (process_appends _ _ _ P), <- app_assoc.
    reflexivity.
Qed.

End ProcessFacts.

(** X3.  [process] raises [IndexError] only for a transaction without
    signature or account key, and otherwise only what
    [construct_balance_changes] raises, a [ValueError] or an
    [OverflowError]: no dictionary subscript misses its key, no loop
    variable is read before it is bound, and the merge never runs out of
    fuel. *)
Theorem process_raises (st : MainState) (transaction : Transaction) (e : exn) :
  process st transaction = Raise e ->
  (e = IndexError /\
   (signatures transaction = [] \/ accountKeys transaction = [])) \/
  (construct_balance_changes transaction = Raise e /\
   (e = ValueError \/ e = OverflowError)).
Proof.
  intros H. pose proof (process_spec st transaction) as S.
  destruct (hd_error (signatures transaction)) as [signature|] eqn:Hs.
  - destruct (hd_error (accountKeys transaction)) as [signer|] eqn:Hk.
    + destruct (construct_balance_changes transaction) as [d|e'] eqn:C.
      * destruct S as (st' & _ & _ & P & _). congruence.
      * rewrite S in H. injection H as ->. right. split; [reflexivity|].
        apply (construct_balance_changes_raises _ _ C).
    + rewrite S in H. injection H as <-. left. split; [reflexivity|].
      right. apply hd_error_nil, Hk.
  - rewrite S in H. injection H as <-. left. split; [reflexivity|].
    left. apply hd_error_nil, Hs.
Qed.

Lemma process_raises_witness :
  (IndexError = IndexError /\
   (signatures {| signatures := []; accountKeys := ["S"];
                  preTokenBalances := []; postTokenBalances := [] |} = [] \/
    accountKeys {| signatures := []; accountKeys := ["S"];
                   preTokenBalances := []; postTokenBalances := [] |} = [])) \/
  (construct_balance_changes
     {| signatures := []; accountKeys := ["S"];
        preTokenBalances := []; postTokenBalances := [] |} = Raise IndexError /\
   (IndexError = ValueError \/ IndexError = OverflowError)).
Proof.
  apply (process_raises initial
           {| signatures := []; accountKeys := ["S"];
              preTokenBalances := []; postTokenBalances := [] |} IndexError).
  reflexivity.
Defined.

(** X4.  The transactions of a run do not influence each other: the
    records of a run that ends are the records it started with, followed
    by what each transaction appends on its own, in order. *)
Theorem main_loop_records (transactions : list Transaction) (st st' : MainState) :
  main_loop st transactions = Ok st' ->
  records st' = records st ++ flat_map emitted transactions.
Proof. apply main_loop_appends. Qed.

Lemma main_loop_records_witness :
  records {| records := [arbitrage "sig" "S" "X"
                           (S754_finite false 7036874417766400 (-46))
                           (S754_finite true 7388718138654720 (-46))];
             first_bound := Some ("X", S754_finite false 7036874417766400 (-46));
             last_bound := Some ("X", S754_finite true 7388718138654720 (-46)) |}
  = records initial ++ flat_map emitted [two_owner_swap; round_trip].
Proof.
  apply (main_loop_records [two_owner_swap; round_trip] initial).
  vm_compute. reflexivity.
Defined.

(** ** Fewer than two swap legs *)

Lemma set_slot_incomplete (change : PyFloat.float) (o : string) :
  set_slot change o (None, None) = (Some o, None) \/
  set_slot change o (None, None) = (None, Some o).
Proof. unfold set_slot. destruct (PyFloat.ltb change PyFloat.zero); auto. Qed.

(** One swap leg alone fills one slot of each of its two keys. *)
Lemma lone_leg_pairs (o : string) (pm : dict string PyFloat.float) :
  wf String.eqb pm -> is_leg pm = true -> pairs (record_leg [] (o, pm)) = [].
Proof.
  intros W L.
  destruct (is_leg_inv pm L) as (m1 & v1 & m2 & v2 & -> & _).
  cbn in W. destruct W as [G _].
  assert (String.eqb m1 m2 = false) as N
    by (rewrite String.eqb_sym; destruct (String.eqb m2 m1); congruence).
  unfold record_leg. cbn [fold_left fst snd record_change update].
  unfold key_eqb at 1. cbn [fst snd]. rewrite N. cbn [andb].
  destruct (set_slot_incomplete v1 o) as [-> | ->],
           (set_slot_incomplete v2 o) as [-> | ->]; reflexivity.
Qed.

Lemma links_nil : links [] = Some [].
Proof. reflexivity. Qed.

(** X5.  A transaction in which at most one owner besides the signer is a
    swap leg leaves the state of [main] as it is: a record needs two legs
    that match. *)
Theorem fewer_than_two_legs (st : MainState) (transaction : Transaction)
  (signature signer : string) (d : BalanceChanges) :
  hd_error (signatures transaction) = Some signature ->
  hd_error (accountKeys transaction) = Some signer ->
  construct_balance_changes transaction = Ok d ->
  List.length (swap_legs (pop String.eqb signer d)) <= 1 ->
  process st transaction = Ok st.
Proof.
  intros Hs Hk C Le. unfold process. rewrite Hs, Hk, C. cbn.
  destruct (pop_wf2 signer d (construct_balance_changes_wf2 _ _ C)) as [_ I].
  unfold detect, token_change_owners. rewrite record_owners_swap_legs.
  destruct (swap_legs (pop String.eqb signer d)) as [|[o pm] [|leg legs]] eqn:E;
    [reflexivity | | cbn in Le; lia].
  assert (In (o, pm) (swap_legs (pop String.eqb signer d))) as Hin
    by (rewrite E; left; reflexivity).
  apply filter_In in Hin. destruct Hin as [Hin L].
  cbn [fold_left]. rewrite (lone_leg_pairs o pm (I o pm Hin) L). reflexivity.
Qed.

Lemma fewer_than_two_legs_witness :
  process after_round_trip lone_leg = Ok after_round_trip.
Proof.
  apply (fewer_than_two_legs after_round_trip lone_leg "sig2" "S"
           [("S", [("X", S754_finite true 7036874417766400 (-46))]);
            ("E1", [("X", S754_finite false 7036874417766400 (-46));
                    ("Y", S754_finite true 7036874417766400 (-47))]);
            ("T", [("Y", S754_finite false 7036874417766400 (-47))])]).
  - reflexivity.
  - reflexivity.
  - vm_compute. reflexivity.
  - vm_compute. lia.
Defined.

(** ** Finished links are maximal *)

Section Maximality.

Lemma find_extension_none (link : list string) (ps : list Pair) :
  find_extension link ps = None <->
  forall a b, In (a, b) ps -> a <> link_last link /\ b <> link_first link.
Proof.
  induction ps as [|[a0 b0] ps IH]; cbn.
  - split; [intros _ a b [] | reflexivity].
  - destruct (String.eqb_spec a0 (link_last link)) as [E1 | N1].
    + split; [discriminate|]. intros H.
      destruct (H a0 b0 (or_introl eq_refl)) as [C _]. contradiction.
    + destruct (String.eqb_spec b0 (link_first link)) as [E2 | N2].
      * split; [discriminate|]. intros H.
        destruct (H a0 b0 (or_introl eq_refl)) as [_ C]. contradiction.
      * rewrite IH. split.
        -- intros H a b [E | I]; [injection E as <- <-|]; auto.
        -- intros H a b I. apply H. right. exact I.
Qed.

Lemma extend_once_none (ps : list Pair) (link : list string) :
  extend_once ps link = None <-> find_extension link ps = None.
Proof.
  unfold extend_once. destruct (find_extension link ps) as [[l []]|];
    split; congruence.
Qed.

Lemma chains_maximal (fuel : nat) (ps : list Pair) (done : list (list string)) :
  List.length ps < fuel ->
  exists cs,
    chains fuel ps done = Some (done ++ cs) /\
    Permutation (List.concat (map edges_of cs)) ps /\
    later_cannot_extend cs.
Proof.
  revert ps done. induction fuel as [|fuel IH]; intros ps done Hf; [lia|].
  cbn [chains]. destruct (pop_last ps) as [[rest l]|] eqn:E.
  - pose proof (pop_last_app _ _ _ E) as ->.
    rewrite length_app in Hf. cbn in Hf.
    destruct (extend_total fuel rest [fst l; snd l]) as
      (ps' & link' & R & Stop & Hne & Le & P); [lia | discriminate |].
    rewrite R.
    destruct (IH ps' (done ++ [link'])) as (cs & C & PC & M); [lia|].
    exists (link' :: cs). rewrite C, <- app_assoc.
    split; [reflexivity|]. split; [|split; [|exact M]].
    + cbn. rewrite PC, P. cbn. rewrite <- surjective_pairing.
      apply Permutation_cons_append.
    + intros a b I. apply (Permutation_in _ PC) in I.
      apply extend_once_none in Stop.
      apply (proj1 (find_extension_none link' ps') Stop a b I).
  - apply pop_last_none in E. subst. exists []. rewrite app_nil_r.
    split; [reflexivity|]. split; [constructor | exact I].
Qed.

End Maximality.

(** X9.  The merge is greedy but every link it finishes is maximal for
    what was left: no pair that ends up in a later link starts at the last
    owner of an earlier link or ends at its first owner. *)
Theorem finished_links_are_maximal (ps : list Pair) :
  exists cs,
    chains (S (List.length ps)) ps [] = Some cs /\
    links ps = Some (map ends cs) /\
    later_cannot_extend cs.
Proof.
  destruct (chains_maximal (S (List.length ps)) ps [] (Nat.lt_succ_diag_r _))
    as (cs & E & _ & M).
  cbn [app] in E. exists cs. repeat split; trivial.
  unfold links. rewrite E. reflexivity.
Qed.

(** ** Pairs that do not touch *)

Section Unrelated.

Lemma pop_last_snoc {A : Type} (l : list A) (x : A) :
  pop_last (l ++ [x]) = Some (l, x).
Proof.
  induction l as [|y l IH]; cbn; [reflexivity|]. rewrite IH. reflexivity.
Qed.

Lemma chains_unrelated (fuel : nat) (ps : list Pair) (done : list (list string)) :
  List.length ps < fuel ->
  (forall p q, In p ps -> In q ps -> fst p <> snd q) ->
  chains fuel ps done
  = Some (done ++ map (fun p => [fst p; snd p]) (rev ps)).
Proof.
  revert ps done. induction fuel as [|fuel IH]; intros ps done Hf U; [lia|].
  cbn [chains]. destruct (pop_last ps) as [[rest l]|] eqn:E.
  - pose proof (pop_last_app _ _ _ E) as ->.
    rewrite length_app in Hf. cbn in Hf.
    assert (extend_once rest [fst l; snd l] = None) as Stop.
    { apply extend_once_none, find_extension_none. intros a b I.
      assert (In (a, b) (rest ++ [l])) as I1 by (apply in_app_iff; auto).
      assert (In l (rest ++ [l])) as I2 by (apply in_app_iff; cbn; auto).
      split.
      - exact (U (a, b) l I1 I2).
      - intros ->. exact (U l (a, link_first [fst l; snd l]) I2 I1 eq_refl). }
    destruct fuel as [|fuel]; [lia|].
    cbn [extend]. rewrite Stop.
    rewrite (IH rest (done ++ [[fst l; snd l]])).
    + rewrite rev_app_distr. cbn. rewrite <- app_assoc. reflexivity.
    + lia.
    + intros p q Ip Iq. apply U; apply in_app_iff; auto.
  - apply pop_last_none in E. subst. rewrite app_nil_r. reflexivity.
Qed.

End Unrelated.

(** X10.  When no pair starts at an owner at which a pair ends, nothing can
    be merged: every pair is a link of its own, and the links come out in
    the reverse order of the pairs, since the merge pops from the end. *)
Theorem unrelated_pairs_reverse (ps : list Pair) :
  (forall p q, In p ps -> In q ps -> fst p <> snd q) ->
  links ps = Some (rev ps).
Proof.
  intros U. unfold links.
  rewrite (chains_unrelated _ ps [] (Nat.lt_succ_diag_r _) U). cbn.
  rewrite map_map. f_equal. rewrite <- (map_id (rev ps)) at 2.
  apply map_ext. intros [a b]. reflexivity.
Qed.

Lemma unrelated_pairs_reverse_witness :
  links [("a", "b"); ("c", "d"); ("a", "d")]
  = Some (rev [("a", "b"); ("c", "d"); ("a", "d")]).
Proof.
  apply (unrelated_pairs_reverse [("a", "b"); ("c", "d"); ("a", "d")]).
  intros p q Ip Iq. cbn in Ip, Iq.
  destruct Ip as [<- | [<- | [<- | []]]], Iq as [<- | [<- | [<- | []]]];
    discriminate.
Defined.

(** ** A round trip through two swap legs *)

Section RoundTrip.

Variables E1 E2 X Y : string.
Variables a b c : PyFloat.float.
Hypothesis E12 : E1 <> E2.
Hypothesis E1ne : E1 <> "".
Hypothesis E2ne : E2 <> "".
Hypothesis XY : X <> Y.
Hypothesis a_pos : gt_zero a = true.
Hypothesis b_pos : gt_zero b = true.
Hypothesis c_pos : gt_zero c = true.
Hypothesis a_c : PyFloat.eqb a c = false.

Lemma record_gave (v : PyFloat.float) (o m : string) (tco : TokenChangeOwners) :
  gt_zero v = true ->
  record_change o tco (m, PyFloat.neg v)
  = update key_eqb (m, v) (fun s => (Some o, snd s)) (None, None) tco.
Proof.
  intros H.
  destruct (PyFloatFacts.zero_ltb_inv v H) as [-> | (p & e & ->)]; reflexivity.
Qed.

Lemma record_got (v : PyFloat.float) (o m : string) (tco : TokenChangeOwners) :
  gt_zero v = true ->
  record_change o tco (m, v)
  = update key_eqb (m, v) (fun s => (fst s, Some o)) (None, None) tco.
Proof.
  intros H.
  destruct (PyFloatFacts.zero_ltb_inv v H) as [-> | (p & e & ->)]; reflexivity.
Qed.

Lemma gt_zero_eqb_refl (v : PyFloat.float) :
  gt_zero v = true -> PyFloat.eqb v v = true.
Proof. intros H. apply PyFloatFacts.eqb_refl, gt_zero_sign, H. Qed.

Lemma neg_not_gt_zero (v : PyFloat.float) :
  gt_zero v = true -> gt_zero (PyFloat.neg v) = false.
Proof.
  intros H.
  destruct (PyFloatFacts.zero_ltb_inv v H) as [-> | (p & e & ->)]; reflexivity.
Qed.

Lemma neg_lt_zero (v : PyFloat.float) :
  gt_zero v = true -> lt_zero (PyFloat.neg v) = true.
Proof.
  intros H.
  destruct (PyFloatFacts.zero_ltb_inv v H) as [-> | (p & e & ->)]; reflexivity.
Qed.

Ltac trip_names :=
  rewrite ?String.eqb_refl,
    ?(neqb _ _ XY), ?(neqb_sym _ _ XY), ?(neqb _ _ E12), ?(neqb_sym _ _ E12),
    ?(neqb _ _ E1ne), ?(neqb _ _ E2ne).

Ltac trip_keys :=
  unfold key_eqb; cbn [fst snd]; trip_names; cbn [andb];
  rewrite ?(gt_zero_eqb_refl _ a_pos), ?(gt_zero_eqb_refl _ b_pos),
    ?(gt_zero_eqb_refl _ c_pos), ?a_c,
    ?(eq_trans (PyFloatFacts.eqb_sym c a) a_c).

Variables eP eQ : dict string PyFloat.float.
Variable d : BalanceChanges.
Hypothesis HP : Permutation [(X, a); (Y, PyFloat.neg b)] eP.
Hypothesis HQ : Permutation [(Y, b); (X, PyFloat.neg c)] eQ.
Hypothesis HD : Permutation [(E1, eP); (E2, eQ)] d.
Hypothesis LP : is_leg eP = true.
Hypothesis LQ : is_leg eQ = true.

(** Only the key of what the first leg gave to the second is complete. *)
Lemma round_trip_pairs : pairs (token_change_owners d) = [(E1, E2)].
Proof.
  pose proof HP as P1. pose proof HQ as Q1. pose proof HD as D1.
  pose proof LP as L1. pose proof LQ as L2.
  apply Permutation_length_2_inv in P1, Q1, D1.
  destruct D1 as [D1 | D1]; rewrite D1;
    unfold token_change_owners; cbn [fold_left record_owner];
    rewrite L1, L2;
    destruct P1 as [P1 | P1], Q1 as [Q1 | Q1]; rewrite P1, Q1;
    cbn [fold_left];
    rewrite ?(record_gave b _ _ _ b_pos), ?(record_gave c _ _ _ c_pos),
            ?(record_got a _ _ _ a_pos), ?(record_got b _ _ _ b_pos);
    repeat (progress (cbn [update fst snd]; trip_keys));
    cbn [pairs truthy]; trip_names; reflexivity.
Qed.

Lemma round_trip_first : only gt_zero eP X a.
Proof.
  pose proof HP as P1. apply Permutation_length_2_inv in P1.
  destruct P1 as [-> | ->].
  - exists [], [(Y, PyFloat.neg b)]. repeat split; trivial.
    repeat constructor. cbn. apply neg_not_gt_zero, b_pos.
  - exists [(Y, PyFloat.neg b)], []. repeat split; trivial.
    repeat constructor. cbn. apply neg_not_gt_zero, b_pos.
Qed.

Lemma round_trip_last : only lt_zero eQ X (PyFloat.neg c).
Proof.
  pose proof HQ as Q1. apply Permutation_length_2_inv in Q1.
  destruct Q1 as [-> | ->].
  - exists [(Y, b)], []. repeat split; [apply neg_lt_zero, c_pos|].
    repeat constructor. cbn. apply gt_zero_not_lt, b_pos.
  - exists [], [(Y, b)]. repeat split; [apply neg_lt_zero, c_pos|].
    repeat constructor. cbn. apply gt_zero_not_lt, b_pos.
Qed.

Lemma round_trip_owners :
  get String.eqb E1 d = Some eP /\ get String.eqb E2 d = Some eQ.
Proof.
  pose proof HD as D1. apply Permutation_length_2_inv in D1.
  destruct D1 as [-> | ->]; cbn; trip_names; auto.
Qed.

(** X8.  Two swap legs that form a round trip: E1 receives [a] of X and
    gives [b] of Y, E2 receives [b] of Y and gives [c] of X, with [a] and
    [c] different floats.  Whatever the order of the owners and of their
    entries, the only pair is (E1, E2), it is the only link, and exactly
    one record is appended, for token X with amount [-(a + (-c))].  (With
    [a] equal to [c] the key of X would be complete as well and the link
    would close on itself.) *)
Theorem round_trip_detected (signature S : string) (st : MainState) :
  pairs (token_change_owners d) = [(E1, E2)] /\
  links (pairs (token_change_owners d)) = Some [(E1, E2)] /\
  exists st',
    detect signature S d st = Ok st' /\
    records st' =
    records st ++
      [{| arb_signature := signature; arb_beneficiary := S; arb_mint := X;
          arb_amount := PyFloat.neg (PyFloat.add a (PyFloat.neg c)) |}].
Proof.
  split; [exact round_trip_pairs|]. unfold detect. rewrite round_trip_pairs.
  split; [reflexivity|].
  change (links [(E1, E2)]) with (Some [(E1, E2)]).
  cbn [of_option bind classify_all].
  destruct round_trip_owners as [G1 G2].
  rewrite (classify_only signature S d st E1 E2 eP eQ X a X (PyFloat.neg c)
             G1 G2 round_trip_first round_trip_last).
  cbn [bind]. eexists. split; [reflexivity|].
  cbn [records]. unfold verdict. rewrite String.eqb_refl. reflexivity.
Qed.

End RoundTrip.

Lemma round_trip_detected_witness :
  let hundred := S754_finite false 7036874417766400 (-46) in
  let fifty := S754_finite false 7036874417766400 (-47) in
  let more := S754_finite false 7388718138654720 (-46) in
  let d := [("E1", [("X", hundred); ("Y", PyFloat.neg fifty)]);
            ("E2", [("X", PyFloat.neg more); ("Y", fifty)])] in
  pairs (token_change_owners d) = [("E1", "E2")] /\
  links (pairs (token_change_owners d)) = Some [("E1", "E2")] /\
  exists st',
    detect "sig" "S" d initial = Ok st' /\
    records st' =
    records initial ++
      [{| arb_signature := "sig"; arb_beneficiary := "S"; arb_mint := "X";
          arb_amount := PyFloat.neg (PyFloat.add hundred (PyFloat.neg more)) |}].
Proof.
  apply (round_trip_detected "E1" "E2" "X" "Y"
           (S754_finite false 7036874417766400 (-46))
           (S754_finite false 7036874417766400 (-47))
           (S754_finite false 7388718138654720 (-46)))
    with (eP := [("X", S754_finite false 7036874417766400 (-46));
                 ("Y", PyFloat.neg (S754_finite false 7036874417766400 (-47)))])
         (eQ := [("X", PyFloat.neg (S754_finite false 7388718138654720 (-46)));
                 ("Y", S754_finite false 7036874417766400 (-47))]);
    try discriminate; try reflexivity.
  apply perm_swap.
Defined.

(** ** Every owner gives once and receives once *)

Section Degrees.

Lemma slot_set_slot_same (change : PyFloat.float) (o : string) (s : Slots) :
  slot (PyFloat.ltb change PyFloat.zero) (set_slot change o s) = Some o.
Proof. unfold set_slot, slot. destruct (PyFloat.ltb change PyFloat.zero); reflexivity. Qed.

Lemma slot_set_slot_other (change : PyFloat.float) (o : string) (s : Slots) :
  slot (negb (PyFloat.ltb change PyFloat.zero)) (set_slot change o s)
  = slot (negb (PyFloat.ltb change PyFloat.zero)) s.
Proof. unfold set_slot, slot. destruct (PyFloat.ltb change PyFloat.zero); reflexivity. Qed.

(** A write leaves the other slot of every key as it was. *)
Lemma update_slot_owners_other (change : PyFloat.float) (o : string)
  (k : TransferKey) (tco : TokenChangeOwners) :
  slot_owners (negb (PyFloat.ltb change PyFloat.zero))
    (update key_eqb k (set_slot change o) (None, None) tco)
  = slot_owners (negb (PyFloat.ltb change PyFloat.zero)) tco.
Proof.
  unfold slot_owners. induction tco as [|[k0 s] tco IH]; cbn [update flat_map snd].
  - rewrite slot_set_slot_other.
    destruct (PyFloat.ltb change PyFloat.zero); reflexivity.
  - destruct (key_eqb k0 k); cbn [flat_map snd].
    + rewrite slot_set_slot_other. reflexivity.
    + rewrite IH. reflexivity.
Qed.

(** A write of a new owner keeps the owners of its slot distinct. *)
Lemma update_slot_owners_same (change : PyFloat.float) (o : string)
  (k : TransferKey) (tco : TokenChangeOwners) :
  let i := PyFloat.ltb change PyFloat.zero in
  ~ In o (slot_owners i tco) -> NoDup (slot_owners i tco) ->
  NoDup (slot_owners i (update key_eqb k (set_slot change o) (None, None) tco)) /\
  incl (slot_owners i (update key_eqb k (set_slot change o) (None, None) tco))
       (o :: slot_owners i tco).
Proof.
  cbv zeta. unfold slot_owners.
  induction tco as [|[k0 s] tco IH]; cbn [update flat_map snd]; intros Ho ND.
  - rewrite slot_set_slot_same. cbn. split.
    + constructor; [intros [] | constructor].
    + apply incl_refl.
  - rewrite in_app_iff in Ho. apply NoDup_app_remove_l in ND as ND'.
    destruct (key_eqb k0 k); cbn [flat_map snd].
    + rewrite slot_set_slot_same. cbn. split.
      * constructor; [tauto | exact ND'].
      * intros x [<- | H]; [left; reflexivity|].
        right. apply in_app_iff. auto.
    + destruct IH as [IH1 IH2]; [tauto | exact ND' |].
      destruct (slot (PyFloat.ltb change PyFloat.zero) s) as [x|]; cbn in *.
      * split.
        -- constructor; [|exact IH1]. intros H. apply IH2 in H.
           destruct H as [<- | H]; [tauto|].
           apply NoDup_cons_iff in ND. tauto.
        -- intros y [<- | H]; [right; left; reflexivity|].
           apply IH2 in H. destruct H as [<- | H]; cbn; auto.
      * split; [exact IH1 | exact IH2].
Qed.

(** What one swap leg does to the owners of either slot. *)
Lemma record_leg_slot_owners (o : string) (pm : dict string PyFloat.float)
  (tco : TokenChangeOwners) (i : bool) :
  is_leg pm = true ->
  ~ In o (slot_owners true tco) -> ~ In o (slot_owners false tco) ->
  NoDup (slot_owners i tco) ->
  NoDup (slot_owners i (record_leg tco (o, pm))) /\
  incl (slot_owners i (record_leg tco (o, pm))) (o :: slot_owners i tco).
Proof.
  intros L Ht Hf ND.
  assert (forall j, ~ In o (slot_owners j tco)) as Ho by (intros []; trivial).
  destruct (is_leg_inv pm L) as (m1 & v1 & m2 & v2 & -> & Signs).
  unfold record_leg. cbn [fold_left fst snd record_change].
  assert (PyFloat.ltb v2 PyFloat.zero = negb (PyFloat.ltb v1 PyFloat.zero)) as Opp.
  { unfold lt_zero, gt_zero in Signs.
    destruct Signs as [[A B] | [A B]].
    - rewrite A, (PyFloatFacts.positive_not_negative v2 B). reflexivity.
    - rewrite B, (PyFloatFacts.positive_not_negative v1 A). reflexivity. }
  set (t1 := update key_eqb (m1, PyFloat.abs v1) (set_slot v1 o) (None, None) tco).
  destruct (Bool.eqb_spec i (PyFloat.ltb v1 PyFloat.zero)) as [-> | Ni].
  - (* the first entry writes this slot, the second the other one *)
    destruct (update_slot_owners_same v1 o (m1, PyFloat.abs v1) tco (Ho _) ND)
      as [N1 I1].
    fold t1 in N1, I1.
    replace (PyFloat.ltb v1 PyFloat.zero)
      with (negb (PyFloat.ltb v2 PyFloat.zero))
      by (rewrite Opp; apply negb_involutive).
    rewrite update_slot_owners_other.
    replace (negb (PyFloat.ltb v2 PyFloat.zero))
      with (PyFloat.ltb v1 PyFloat.zero)
      by (rewrite Opp; symmetry; apply negb_involutive).
    auto.
  - assert (i = PyFloat.ltb v2 PyFloat.zero) as ->.
    { rewrite Opp. revert Ni.
      destruct i, (PyFloat.ltb v1 PyFloat.zero); cbn; congruence. }
    assert (slot_owners (PyFloat.ltb v2 PyFloat.zero) t1
            = slot_owners (PyFloat.ltb v2 PyFloat.zero) tco) as E1.
    { rewrite Opp. apply update_slot_owners_other. }
    destruct (update_slot_owners_same v2 o (m2, PyFloat.abs v2) t1) as [N2 I2];
      [rewrite E1; apply Ho | rewrite E1; exact ND |].
    rewrite E1 in I2. split; assumption.
Qed.

Lemma record_legs_slot_owners (legs : BalanceChanges) (tco : TokenChangeOwners) :
  NoDup (map fst legs) ->
  Forall (fun leg => is_leg (snd leg) = true) legs ->
  (forall i o, In o (slot_owners i tco) -> ~ In o (map fst legs)) ->
  (forall i, NoDup (slot_owners i tco)) ->
  forall i, NoDup (slot_owners i (fold_left record_leg legs tco)).
Proof.
  revert tco. induction legs as [|[o pm] legs IH]; cbn [fold_left map fst];
    intros tco ND L Fresh N i; [apply N|].
  apply NoDup_cons_iff in ND. destruct ND as [No ND].
  apply Forall_cons_iff in L. destruct L as [Lo L]. cbn in Lo.
  assert (forall j, ~ In o (slot_owners j tco)) as Ho.
  { intros j H. apply (Fresh j o H). left. reflexivity. }
  apply IH; trivial.
  - intros j x H Hx.
    destruct (record_leg_slot_owners o pm tco j Lo (Ho true) (Ho false) (N j))
      as [_ Inc].
    apply Inc in H. destruct H as [<- | H]; [contradiction|].
    apply (Fresh j x H). right. exact Hx.
  - intros j.
    apply (record_leg_slot_owners o pm tco j Lo (Ho true) (Ho false) (N j)).
Qed.

Lemma wf_NoDup_keys {V : Type} (d : dict string V) :
  wf String.eqb d -> NoDup (map fst d).
Proof.
  induction d as [|[k v] d IH]; cbn; [constructor|].
  intros [G W]. constructor; [|auto].
  intros H. apply in_map_iff in H. destruct H as ([k' v'] & E & H).
  cbn in E. subst k'. exact (get_none_not_In _ _ G v' H).
Qed.

Lemma filter_NoDup_keys {V : Type} (f : string * V -> bool) (d : dict string V) :
  NoDup (map fst d) -> NoDup (map fst (filter f d)).
Proof.
  induction d as [|e d IH]; cbn; [auto|].
  intros ND. apply NoDup_cons_iff in ND. destruct ND as [N ND].
  destruct (f e); cbn; [|auto]. constructor; [|auto].
  intros H. apply N. apply in_map_iff in H. destruct H as (x & E & H).
  apply filter_In in H. apply in_map_iff. exists x. tauto.
Qed.

Lemma slot_owners_distinct (d : BalanceChanges) (i : bool) :
  wf String.eqb d -> NoDup (slot_owners i (token_change_owners d)).
Proof.
  intros W. unfold token_change_owners. rewrite record_owners_swap_legs.
  apply record_legs_slot_owners.
  - apply filter_NoDup_keys, wf_NoDup_keys, W.
  - apply Forall_forall. intros leg H. apply filter_In in H. tauto.
  - intros j o [].
  - intros j. constructor.
Qed.

Lemma slot_owners_cons (i : bool) (k : TransferKey) (s : Slots)
  (tco : TokenChangeOwners) :
  slot_owners i ((k, s) :: tco)
  = match slot i s with Some o => [o] | None => [] end ++ slot_owners i tco.
Proof. reflexivity. Qed.

Lemma pairs_in_slot_owners (i : bool) (tco : TokenChangeOwners) (a : string) :
  In a (map (fun p => if i then fst p else snd p) (pairs tco)) ->
  In a (slot_owners i tco).
Proof.
  induction tco as [|[k [s0 s1]] tco IH]; intros H; [destruct H|].
  rewrite slot_owners_cons. apply in_app_iff.
  destruct s0 as [x|], s1 as [y|]; cbn [pairs] in H; auto.
  destruct (truthy (Some x) && truthy (Some y)); auto.
  destruct H as [<- | H]; auto.
  left. destruct i; left; reflexivity.
Qed.

Lemma pairs_ends_distinct (i : bool) (tco : TokenChangeOwners) :
  NoDup (slot_owners i tco) ->
  NoDup (map (fun p => if i then fst p else snd p) (pairs tco)).
Proof.
  induction tco as [|[k [s0 s1]] tco IH]; intros ND; [constructor|].
  rewrite slot_owners_cons in ND. apply NoDup_app_remove_l in ND as ND'.
  destruct s0 as [x|], s1 as [y|]; cbn [pairs]; auto.
  destruct (truthy (Some x) && truthy (Some y)); auto.
  cbn [map]. constructor; auto.
  intros H. apply pairs_in_slot_owners in H.
  destruct i; cbn in ND; apply NoDup_cons_iff in ND; tauto.
Qed.

End Degrees.



(** ** [rpc] *)

Section Rpc.

Context {J : Type}.

(** Responses that are retried cost at least one sleep each. *)
Lemma rpc_skip (pre rest : list (Response J)) (slept : list Z) :
  Forall retried pre ->
  exists sleeps,
    rpc (pre ++ rest) slept = rpc rest (slept ++ sleeps) /\
    List.length pre <= List.length sleeps /\
    Forall (fun z => (0 <= z)%Z) sleeps.
Proof.
  intros F. revert slept. induction F as [|r pre (N200 & N403 & H) F IH];
    intros slept.
  - exists []. rewrite app_nil_r. cbn. auto.
  - cbn [app rpc].
    rewrite (proj2 (Z.eqb_neq _ _) N403), (proj2 (Z.eqb_neq _ _) N200).
    destruct (Z.eqb_spec (status_code r) 429) as [E | N].
    + destruct (retry_after r) as [header|] eqn:R.
      * destruct (H E header eq_refl) as (wait & -> & Pos).
        assert (sleep_limit = 9223372036%Z) as Lim by reflexivity.
        rewrite (proj2 (Z.ltb_ge wait (- sleep_limit)%Z)) by lia.
        rewrite (proj2 (Z.ltb_ge sleep_limit wait)) by lia.
        rewrite (proj2 (Z.ltb_ge wait 0)) by lia. cbn [orb].
        destruct (IH (slept ++ [wait; 1%Z])) as (sleeps & -> & L & P).
        exists ([wait; 1%Z] ++ sleeps). rewrite app_assoc.
        split; [reflexivity|]. split; [cbn; lia|].
        repeat constructor; trivial; lia.
      * destruct (IH (slept ++ [1%Z])) as (sleeps & -> & L & P).
        exists ([1%Z] ++ sleeps). rewrite app_assoc.
        split; [reflexivity|]. split; [cbn; lia|].
        constructor; trivial. lia.
    + destruct (IH (slept ++ [1%Z])) as (sleeps & -> & L & P).
      exists ([1%Z] ++ sleeps). rewrite app_assoc.
      split; [reflexivity|]. split; [cbn; lia|].
      constructor; trivial. lia.
Qed.

End Rpc.





(** ** The statistics *)

Section StatisticsFacts.

Lemma tally_all (recs : list Arbitrage) (s : Statistics) :
  rows (fold_left tally recs s) = rows s ++ recs /\
  count (fold_left tally recs s)
  = (count s + Z.of_nat (List.length (filter known recs)))%Z.
Proof.
  revert s. induction recs as [|r recs IH]; intros s; cbn [fold_left filter].
  - rewrite app_nil_r. cbn [List.length Z.of_nat]. split; [reflexivity | lia].
  - destruct (IH (tally s r)) as [R C]. rewrite R, C.
    unfold tally, known.
    destruct (get String.eqb (arb_mint r) KNOWN_TOKEN_VALUE); cbn [rows count];
      rewrite <- app_assoc; (split; [reflexivity|]).
    + cbn [List.length]. lia.
    + lia.
Qed.

(** While no record has been the biggest, [biggest[0]] is still 0. *)
Lemma tally_biggest_step (s : Statistics) (r : Arbitrage) :
  (snd (biggest s) = None -> fst (biggest s) = PyFloat.zero) ->
  (snd (biggest (tally s r)) = None -> fst (biggest (tally s r)) = PyFloat.zero) /\
  (snd (biggest (tally s r)) = None <->
   snd (biggest s) = None /\ gains r = false).
Proof.
  intros Inv. unfold tally, gains.
  destruct (get String.eqb (arb_mint r) KNOWN_TOKEN_VALUE) as [price|];
    cbn [biggest]; [|tauto].
  destruct (snd (biggest s)) as [m|] eqn:B.
  - destruct (PyFloat.ltb (fst (biggest s)) _); cbn [fst snd]; rewrite ?B;
      split; try discriminate; split; try discriminate; intros [C _];
      discriminate C.
  - rewrite (Inv eq_refl).
    destruct (PyFloat.ltb PyFloat.zero _); cbn [fst snd]; rewrite ?B.
    + split; [discriminate|]. split; [discriminate | intros [_ C]; discriminate C].
    + split; [intros _; apply Inv; reflexivity | tauto].
Qed.

Lemma tally_biggest (recs : list Arbitrage) (s : Statistics) :
  (snd (biggest s) = None -> fst (biggest s) = PyFloat.zero) ->
  (snd (biggest (fold_left tally recs s)) = None <->
   snd (biggest s) = None /\ Forall (fun r => gains r = false) recs).
Proof.
  revert s. induction recs as [|r recs IH]; intros s Inv; cbn [fold_left].
  - split; [auto | tauto].
  - destruct (tally_biggest_step s r Inv) as [Inv' Step].
    rewrite (IH _ Inv'), Step, Forall_cons_iff. tauto.
Qed.

End StatisticsFacts.


(** X14.  [biggest] keeps its initial message [None] exactly when no
    record has a dollar value above zero: a run whose records all lost
    money, or had unpriced tokens, reports no biggest transaction. *)
Theorem no_biggest_without_gain (recs : list Arbitrage) :
  snd (biggest (statistics recs)) = None <->
  Forall (fun r => gains r = false) recs.
Proof.
  unfold statistics. rewrite tally_biggest by reflexivity.
  cbn [no_statistics biggest snd]. tauto.
Qed.

(** ** No owner is paired with itself *)

Section NoSelfLoop.

Lemma key_eqb_mint (k1 k2 : TransferKey) :
  key_eqb k1 k2 = true -> fst k1 = fst k2.
Proof.
  unfold key_eqb. rewrite andb_true_iff, String.eqb_eq. tauto.
Qed.

Lemma record_change_justified (d : BalanceChanges) (o : string)
  (pm : dict string PyFloat.float) (tco : TokenChangeOwners)
  (m : string) (v : PyFloat.float) :
  In (o, pm) d -> In (m, v) pm ->
  lt_zero v = true \/ gt_zero v = true ->
  slots_justified d tco -> slots_justified d (record_change o tco (m, v)).
Proof.
  intros Ho Hm Sign Inv k s0 s1 H. unfold record_change in H.
  assert (forall old,
            fst k = m ->
            ((forall o', fst old = Some o' -> gave d (fst k) o') /\
             (forall o', snd old = Some o' -> received d (fst k) o')) ->
            set_slot v o old = (s0, s1) ->
            (forall o', s0 = Some o' -> gave d (fst k) o') /\
            (forall o', s1 = Some o' -> received d (fst k) o')) as Write.
  { intros [x y] Ek [Hx Hy]. unfold set_slot. cbn [fst snd] in *.
    destruct (PyFloat.ltb v PyFloat.zero) eqn:L; intros [= <- <-];
      split; trivial; intros o' [= <-]; rewrite Ek; exists pm, v;
      repeat split; trivial.
    destruct Sign as [C | G]; [|exact G].
    unfold lt_zero in C. congruence. }
  apply update_In_key in H.
  destruct H as [H | [(old & H & E & Eq) | [-> Eq]]].
  - exact (Inv _ _ _ H).
  - destruct old as [x y]. apply (Write (x, y)).
    + apply key_eqb_mint in E. exact E.
    + exact (Inv _ _ _ H).
    + congruence.
  - apply (Write (None, None)); [reflexivity | split; discriminate | congruence].
Qed.

Lemma record_owner_justified (d : BalanceChanges) (o : string)
  (pm : dict string PyFloat.float) (tco : TokenChangeOwners) :
  In (o, pm) d -> slots_justified d tco ->
  slots_justified d (record_owner tco (o, pm)).
Proof.
  intros Ho Inv. cbn [record_owner]. destruct (is_leg pm) eqn:L; [|exact Inv].
  destruct (is_leg_inv pm L) as (m1 & v1 & m2 & v2 & E & Signs).
  rewrite E in *. cbn [fold_left].
  apply (record_change_justified d o _ _ m2 v2 Ho); [cbn; auto | tauto |].
  apply (record_change_justified d o _ _ m1 v1 Ho); [cbn; auto | tauto | exact Inv].
Qed.

Lemma token_change_owners_justified (d : BalanceChanges) :
  slots_justified d (token_change_owners d).
Proof.
  unfold token_change_owners.
  assert (forall l tco, incl l d -> slots_justified d tco ->
                        slots_justified d (fold_left record_owner l tco)) as G.
  { induction l as [|[o pm] l IH]; cbn [fold_left]; intros tco I Inv; trivial.
    apply IH.
    - intros e He. apply I. right. exact He.
    - apply record_owner_justified; trivial. apply I. left. reflexivity. }
  apply G; [apply incl_refl | intros k s0 s1 []].
Qed.

Lemma no_self_pair (d : BalanceChanges) (a b : string) :
  wf2 d -> In (a, b) (pairs (token_change_owners d)) -> a <> b.
Proof.
  intros [W I] H E. subst b. apply pairs_In in H. destruct H as (k & H & _).
  destruct (token_change_owners_justified d _ _ _ H) as [G R].
  destruct (G a eq_refl) as (pm & v & Ho & Hm & Neg).
  destruct (R a eq_refl) as (pm' & v' & Ho' & Hm' & Pos).
  pose proof (In_get_string _ _ _ W Ho) as G1.
  rewrite (In_get_string _ _ _ W Ho') in G1. injection G1 as ->.
  pose proof (In_get_string _ _ _ (I _ _ Ho) Hm) as G2.
  rewrite (In_get_string _ _ _ (I _ _ Ho) Hm') in G2. injection G2 as ->.
  rewrite (gt_zero_not_lt _ Pos) in Neg. discriminate.
Qed.

End NoSelfLoop.

(** X7.  No pair of a transaction goes from an owner to that same owner:
    what an owner gave and what it received are entries under two
    different mints, so they never meet under one key. *)
Theorem no_self_loop_pair (transaction : Transaction) (signer : string)
  (d : BalanceChanges) (a b : string) :
  construct_balance_changes transaction = Ok d ->
  In (a, b) (pairs (token_change_owners (pop String.eqb signer d))) ->
  a <> b.
Proof.
  intros C. apply no_self_pair.
  apply pop_wf2. apply (construct_balance_changes_wf2 _ _ C).
Qed.

Lemma no_self_loop_pair_witness : "E1" <> "E2".
Proof.
  apply (no_self_loop_pair round_trip "S" round_trip_changes "E1" "E2").
  - vm_compute. reflexivity.
  - vm_compute. left. reflexivity.
Defined.

(** ** A run that finds nothing *)

Lemma filter_none {A : Type} (f : A -> bool) (l : list A) :
  Forall (fun x => f x = false) l -> filter f l = [].
Proof.
  induction 1 as [|x l H F IH]; cbn; [reflexivity|]. rewrite H. exact IH.
Qed.



(** ** The return value and the exceptions of [construct_balance_changes] *)

(** X1.  When [construct_balance_changes] returns, its keys are the owners
    of the entries of the transaction, and under an owner a mint is mapped
    to the sum of its post amounts minus the sum of its pre amounts, over
    ten to the decimals of the last entry of that mint (post balances
    first), as one correctly rounded division; a mint whose net change is
    zero is no key. *)
Theorem balance_changes_are_net_changes (transaction : Transaction)
  (d : BalanceChanges) (o : string) :
  construct_balance_changes transaction = Ok d ->
  let entries := postTokenBalances transaction ++ preTokenBalances transaction in
  (get String.eqb o d <> None <-> exists b, In b entries /\ owner b = o) /\
  forall v m,
    get String.eqb o d = Some v ->
    if (net_change transaction o m =? 0)%Z then get String.eqb m v = None
    else exists dcm q,
           last_decimals m entries None = Some dcm /\
           PyFloat.truediv (net_change transaction o m) (10 ^ Z.of_N dcm) = Ok q /\
           get String.eqb m v = Some q.
Proof. apply construct_balance_changes_returns. Qed.

Lemma balance_changes_are_net_changes_witness :
  let entries := postTokenBalances round_trip ++ preTokenBalances round_trip in
  (get String.eqb "E2" round_trip_changes <> None <->
   exists b, In b entries /\ owner b = "E2") /\
  forall v m,
    get String.eqb "E2" round_trip_changes = Some v ->
    if (net_change round_trip "E2" m =? 0)%Z then get String.eqb m v = None
    else exists dcm q,
           last_decimals m entries None = Some dcm /\
           PyFloat.truediv (net_change round_trip "E2" m) (10 ^ Z.of_N dcm) = Ok q /\
           get String.eqb m v = Some q.
Proof.
  apply (balance_changes_are_net_changes round_trip round_trip_changes "E2").
  vm_compute. reflexivity.
Defined.

(** X2.  [construct_balance_changes] raises a [ValueError] exactly when
    some amount is no integer literal, and apart from that only an
    [OverflowError], for a quotient too large for a float: the decimals of
    a mint are always there when the comprehension looks them up. *)
Theorem construct_balance_changes_errors (transaction : Transaction) :
  match construct_balance_changes transaction with
  | Ok _ | Raise OverflowError =>
      Forall (fun b => exists n, amount_int b = Ok n)
        (postTokenBalances transaction ++ preTokenBalances transaction)
  | Raise ValueError =>
      Exists (fun b => amount_int b = Raise ValueError)
        (postTokenBalances transaction ++ preTokenBalances transaction)
  | Raise _ => False
  end.
Proof. apply construct_balance_changes_result. Qed.
